(** * aws-lambda-web-gateway: request/response translation and the
    streaming prelude decoder, shallowly embedded.

    Sources embedded here:
    - [src/utils.rs]     : [whether_should_base64_encode], [transform_body]
    - [src/buffered.rs]  : [handle_buffered_response]
    - [src/streaming.rs] : [handle_streaming_response], [detect_metadata],
                           [try_parse_metadata], [create_response_builder]
    - [src/lib.rs]       : the request closure built by [handler_factory]

    Bytes are [Byte.byte]; a Rust [String] is a Coq [string] whose
    characters are its UTF-8 bytes. An [http::HeaderMap] is an ordered list
    of (lower-case name, value) pairs. The backend event stream is a list of
    [recv] results; running off the end of the list is [recv() = Ok(None)]. *)

From Stdlib Require Import List Bool Arith Lia String Ascii ZArith.
Import ListNotations.
Open Scope list_scope.

(* ------------------------------------------------------------------ *)
(** ** Bytes *)

Module Bytes.

Definition bytes := list Byte.byte.

Definition nul : Byte.byte := Byte.x00.
Definition lbrace : Byte.byte := Byte.x7b.

Definition nuls (n : nat) : bytes := repeat nul n.

Fixpoint bytes_eqb (a b : bytes) : bool :=
  match a, b with
  | [], [] => true
  | x :: a', y :: b' => Byte.eqb x y && bytes_eqb a' b'
  | _, _ => false
  end.

Definition byte_of_nat (n : nat) : Byte.byte :=
  match Byte.of_nat n with Some b => b | None => Byte.x00 end.

End Bytes.
Import Bytes.

(* ------------------------------------------------------------------ *)
(** ** [String::from_utf8_lossy]

    One scan step classifies the head of the input as a well-formed UTF-8
    character of [w] bytes ([(w, true)]) or as an ill-formed prefix of
    [w] bytes, the maximal prefix of a well-formed sequence, which the
    lossy conversion replaces by one U+FFFD ([(w, false)]). The ranges are
    those of the Unicode well-formed byte sequence table used by
    [core::str::Utf8Chunks]. *)

Module Utf8.

Definition in_range (lo hi : nat) (b : Byte.byte) : bool :=
  (lo <=? Byte.to_nat b) && (Byte.to_nat b <=? hi).

(** width and the range of the second byte, for a lead byte *)
Definition lead_info (n0 : nat) : option (nat * nat * nat) :=
  if (194 <=? n0) && (n0 <=? 223) then Some (2, 128, 191)
  else if n0 =? 224 then Some (3, 160, 191)
  else if (225 <=? n0) && (n0 <=? 236) then Some (3, 128, 191)
  else if n0 =? 237 then Some (3, 128, 159)
  else if (238 <=? n0) && (n0 <=? 239) then Some (3, 128, 191)
  else if n0 =? 240 then Some (4, 144, 191)
  else if (241 <=? n0) && (n0 <=? 243) then Some (4, 128, 191)
  else if n0 =? 244 then Some (4, 128, 143)
  else None.

(** number of leading continuation bytes (0x80..0xBF), at most [k] *)
Fixpoint cont_count (k : nat) (bs : bytes) : nat :=
  match k, bs with
  | S k', b :: bs' => if in_range 128 191 b then S (cont_count k' bs') else 0
  | _, _ => 0
  end.

Definition scan (bs : bytes) : nat * bool :=
  match bs with
  | [] => (0, true)
  | b0 :: rest =>
      let n0 := Byte.to_nat b0 in
      if n0 <? 128 then (1, true)
      else match lead_info n0 with
           | None => (1, false)
           | Some (w, lo, hi) =>
               match rest with
               | [] => (1, false)
               | b1 :: rest1 =>
                   if in_range lo hi b1 then
                     let k := cont_count (w - 2) rest1 in
                     if k =? w - 2 then (w, true) else (2 + k, false)
                   else (1, false)
               end
           end
  end.

(** U+FFFD, REPLACEMENT CHARACTER *)
Definition replacement : bytes := [Byte.xef; Byte.xbf; Byte.xbd].

Fixpoint lossy_aux (fuel : nat) (bs : bytes) : bytes :=
  match fuel, bs with
  | _, [] => []
  | 0, _ => []
  | S f, _ =>
      let (w, ok) := scan bs in
      (if ok then firstn w bs else replacement) ++ lossy_aux f (skipn w bs)
  end.

Fixpoint valid_aux (fuel : nat) (bs : bytes) : bool :=
  match fuel, bs with
  | _, [] => true
  | 0, _ => false
  | S f, _ => let (w, ok) := scan bs in ok && valid_aux f (skipn w bs)
  end.

(** every scan step consumes at least one byte, so [length bs] steps suffice *)
Definition utf8_valid (bs : bytes) : bool := valid_aux (List.length bs) bs.

(** [String::from_utf8_lossy(&bs)] *)
Definition from_utf8_lossy (bs : bytes) : string :=
  string_of_list_byte (lossy_aux (List.length bs) bs).

End Utf8.

(* ------------------------------------------------------------------ *)
(** ** [base64::prelude::BASE64_STANDARD]

    Standard alphabet, padding written on encode and required (canonical)
    on decode, non-zero trailing bits rejected. *)

Module Base64.

Definition encode_sextet (k : nat) : Byte.byte :=
  if k <? 26 then byte_of_nat (65 + k)
  else if k <? 52 then byte_of_nat (97 + (k - 26))
  else if k <? 62 then byte_of_nat (48 + (k - 52))
  else if k =? 62 then Byte.x2b
  else Byte.x2f.

Definition decode_sextet (c : Byte.byte) : option nat :=
  let n := Byte.to_nat c in
  if (65 <=? n) && (n <=? 90) then Some (n - 65)
  else if (97 <=? n) && (n <=? 122) then Some (n - 97 + 26)
  else if (48 <=? n) && (n <=? 57) then Some (n - 48 + 52)
  else if n =? 43 then Some 62
  else if n =? 47 then Some 63
  else None.

Definition pad : Byte.byte := Byte.x3d.

Fixpoint encode_bytes (bs : bytes) : bytes :=
  match bs with
  | [] => []
  | [b0] =>
      let n0 := Byte.to_nat b0 in
      [encode_sextet (n0 / 4); encode_sextet ((n0 mod 4) * 16); pad; pad]
  | [b0; b1] =>
      let n0 := Byte.to_nat b0 in
      let n1 := Byte.to_nat b1 in
      [encode_sextet (n0 / 4); encode_sextet ((n0 mod 4) * 16 + n1 / 16);
       encode_sextet ((n1 mod 16) * 4); pad]
  | b0 :: b1 :: b2 :: rest =>
      let n0 := Byte.to_nat b0 in
      let n1 := Byte.to_nat b1 in
      let n2 := Byte.to_nat b2 in
      [encode_sextet (n0 / 4); encode_sextet ((n0 mod 4) * 16 + n1 / 16);
       encode_sextet ((n1 mod 16) * 4 + n2 / 64); encode_sextet (n2 mod 64)]
      ++ encode_bytes rest
  end.

(** [BASE64_STANDARD.encode(body)] *)
Definition encode (bs : bytes) : string := string_of_list_byte (encode_bytes bs).

Definition is_pad (c : Byte.byte) : bool := Byte.eqb c pad.

Definition obind {A B} (o : option A) (f : A -> option B) : option B :=
  match o with Some a => f a | None => None end.

Definition octet (n : nat) : option Byte.byte := Byte.of_nat n.

(** one full quantum of four symbols *)
Definition decode_quad (c0 c1 c2 c3 : Byte.byte) : option bytes :=
  obind (decode_sextet c0) (fun s0 =>
  obind (decode_sextet c1) (fun s1 =>
  obind (decode_sextet c2) (fun s2 =>
  obind (decode_sextet c3) (fun s3 =>
  obind (octet (s0 * 4 + s1 / 16)) (fun b0 =>
  obind (octet ((s1 mod 16) * 16 + s2 / 4)) (fun b1 =>
  obind (octet ((s2 mod 4) * 64 + s3)) (fun b2 =>
  Some [b0; b1; b2]))))))).

(** the last quantum, which may carry one or two padding symbols *)
Definition decode_last (c0 c1 c2 c3 : Byte.byte) : option bytes :=
  if is_pad c2 then
    if is_pad c3 then
      obind (decode_sextet c0) (fun s0 =>
      obind (decode_sextet c1) (fun s1 =>
      if s1 mod 16 =? 0 then
        obind (octet (s0 * 4 + s1 / 16)) (fun b0 => Some [b0])
      else None))
    else None
  else if is_pad c3 then
    obind (decode_sextet c0) (fun s0 =>
    obind (decode_sextet c1) (fun s1 =>
    obind (decode_sextet c2) (fun s2 =>
    if s2 mod 4 =? 0 then
      obind (octet (s0 * 4 + s1 / 16)) (fun b0 =>
      obind (octet ((s1 mod 16) * 16 + s2 / 4)) (fun b1 => Some [b0; b1]))
    else None)))
  else decode_quad c0 c1 c2 c3.

(** [BASE64_STANDARD.decode(input)]: [None] is a [DecodeError] *)
Fixpoint decode (cs : bytes) : option bytes :=
  match cs with
  | [] => Some []
  | c0 :: c1 :: c2 :: c3 :: rest =>
      match rest with
      | [] => decode_last c0 c1 c2 c3
      | _ => obind (decode_quad c0 c1 c2 c3) (fun q =>
             obind (decode rest) (fun r => Some (q ++ r)))
      end
  | _ => None
  end.

End Base64.

(* ------------------------------------------------------------------ *)
(** ** The parts of [http] and [axum] the gateway uses *)

Module Http.

(** [http::HeaderMap]: (name, value) pairs in insertion order; names are
    stored lower-case, as [HeaderName] normalises them. *)
Definition header_map := list (string * string).

(** [HeaderMap::get_all(k)]: every value under [k], in insertion order *)
Definition get_all (k : string) (h : header_map) : list string :=
  map snd (filter (fun kv => String.eqb (fst kv) k) h).

(** [HeaderMap::get(k)]: the first value under [k] *)
Definition get (k : string) (h : header_map) : option string :=
  hd_error (get_all k h).

(** [HeaderMap::remove(k)]: drops every value under [k]. The real map
    moves its last entry into the freed slot, so the iteration order of
    the other names is not the one kept here; only the values under each
    name, in their order, are meant to be read from the result. *)
Definition remove (k : string) (h : header_map) : header_map :=
  filter (fun kv => negb (String.eqb (fst kv) k)) h.

(** [HeaderValue::from_bytes]: [b >= 32 && b != 127 || b == b'\t'] *)
Definition header_value_byte_ok (b : Byte.byte) : bool :=
  let n := Byte.to_nat b in ((32 <=? n) && negb (n =? 127)) || (n =? 9).

Definition valid_header_value (v : string) : bool :=
  forallb header_value_byte_ok (list_byte_of_string v).

(** [HeaderValue::to_str]: only visible ASCII (and tab) converts *)
Definition visible_ascii (b : Byte.byte) : bool :=
  let n := Byte.to_nat b in ((32 <=? n) && (n <? 127)) || (n =? 9).

Definition to_str (v : string) : option string :=
  if forallb visible_ascii (list_byte_of_string v) then Some v else None.

(** one item of a streamed body: [Ok(bytes)] or an error that aborts it *)
Inductive body_item :=
| BodyOk (data : bytes)
| BodyErr.

Inductive body :=
| Full (data : bytes)
| Streamed (items : list body_item).

Record response := mk_response {
  resp_status : nat;
  resp_headers : header_map;
  resp_body : body
}.

(** [http::response::Builder]: status and headers so far, or the error a
    failed conversion left in it ([None]) *)
Definition builder := option (nat * header_map).

(** [builder.header(k, v)] with a [&String] value: the value is validated *)
Definition builder_header (k v : string) (b : builder) : builder :=
  match b with
  | Some (s, h) => if valid_header_value v then Some (s, h ++ [(k, v)]) else None
  | None => None
  end.

(** the response [handle_err!] returns: 500 with [Body::empty()] *)
Definition internal_error : response := mk_response 500 [] (Full []).

(** [handle_err!("Building response", builder.body(b))] *)
Definition finish (b : builder) (bd : body) : response :=
  match b with
  | Some (s, h) => mk_response s h bd
  | None => internal_error
  end.

End Http.
Import Http.

(* ------------------------------------------------------------------ *)
(** ** [src/utils.rs] *)

Module Utils.

Definition content_type_of (headers : header_map) : string :=
  match get "content-type"%string headers with
  | Some v => match to_str v with Some s => s | None => ""%string end
  | None => ""%string
  end.

(** [whether_should_base64_encode] *)
Definition whether_should_base64_encode (headers : header_map) : bool :=
  let content_type := content_type_of headers in
  if String.eqb content_type "application/json"%string then false
  else if String.eqb content_type "application/xml"%string then false
  else if String.eqb content_type "application/javascript"%string then false
  else if String.prefix "text/"%string content_type then false
  else true.

(** [transform_body] *)
Definition transform_body (should_base64_encode : bool) (body : bytes) : string :=
  if should_base64_encode then Base64.encode body else Utf8.from_utf8_lossy body.

End Utils.

(* ------------------------------------------------------------------ *)
(** ** [src/streaming.rs] *)

Module Streaming.

Record MetadataPrelude := mk_prelude {
  status_code : nat;
  headers : header_map;
  cookies : list string
}.

(** [MetadataPrelude::default()]: [StatusCode::OK], empty map, no cookies *)
Definition default_prelude : MetadataPrelude := mk_prelude 200 [] [].

(** [InvokeWithResponseStreamResponseEvent] *)
Inductive event :=
| PayloadChunk (payload : option bytes)
| InvokeComplete
| Unknown.

(** the result of one [resp.event_stream.recv().await] *)
Inductive recv :=
| RecvOk (e : event)
| RecvErr.

Section Decoder.

(** [serde_json::from_str::<MetadataPrelude>]; [None] is an [Err] *)
Variable from_str : string -> option MetadataPrelude.

(** [serde_json::from_str(&String::from_utf8_lossy(bs)).unwrap_or_default()] *)
Definition parse_prelude (bs : bytes) : MetadataPrelude :=
  match from_str (Utf8.from_utf8_lossy bs) with
  | Some p => p
  | None => default_prelude
  end.

(** [detect_metadata]: [bytes.get(0) == Some(&b'{')] *)
Definition detect_metadata (bs : bytes) : bool :=
  match bs with
  | b :: _ => Byte.eqb b lbrace
  | [] => false
  end.

(** the [for (i, &byte) in buffer.iter().enumerate()] loop of
    [try_parse_metadata]; [xs] is the part of [buffer] not yet visited *)
Fixpoint try_parse_loop (buffer xs : bytes) (i null_count : nat)
  : option (MetadataPrelude * bytes) :=
  match xs with
  | [] => None
  | byte :: xs' =>
      if negb (Byte.eqb byte nul) then try_parse_loop buffer xs' (S i) 0
      else if S null_count =? 8 then
        Some (parse_prelude (firstn (i - 7) buffer), skipn (i + 1) buffer)
      else try_parse_loop buffer xs' (S i) (S null_count)
  end.

(** [try_parse_metadata] *)
Definition try_parse_metadata (buffer : bytes) : option (MetadataPrelude * bytes) :=
  try_parse_loop buffer buffer 0 0.

(** the metadata-collecting [loop] of [handle_streaming_response]:
    [None] is the early return of [handle_err!] on a receive error;
    otherwise the prelude (if any), the bytes left in the buffer and the
    events not yet received *)
Fixpoint collect (buffer : bytes) (evs : list recv)
  : option (option MetadataPrelude * bytes * list recv) :=
  match evs with
  | [] => Some (None, buffer, [])
  | RecvErr :: _ => None
  | RecvOk (PayloadChunk (Some data)) :: rest =>
      let buffer' := buffer ++ data in
      if negb (detect_metadata buffer') then Some (None, buffer', rest)
      else match try_parse_metadata buffer' with
           | Some (prelude, remaining) => Some (Some prelude, remaining, rest)
           | None => collect buffer' rest
           end
  | RecvOk _ :: rest => Some (None, buffer, rest)
  end.

End Decoder.

(** the spawned task's receive [loop]: what it sends on the channel *)
Fixpoint relay (evs : list recv) : list body_item :=
  match evs with
  | [] => []
  | RecvErr :: rest => BodyErr :: relay rest
  | RecvOk (PayloadChunk (Some data)) :: rest =>
      match data with
      | [] => relay rest
      | _ => BodyOk data :: relay rest
      end
  | RecvOk (PayloadChunk None) :: rest => relay rest
  | RecvOk InvokeComplete :: _ => []
  | RecvOk Unknown :: rest => relay rest
  end.

(** [create_response_builder] *)
Definition create_response_builder (metadata : option MetadataPrelude) : builder :=
  match metadata with
  | Some m =>
      fold_left (fun b cookie => builder_header "set-cookie"%string cookie b)
        (cookies m) (Some (status_code m, remove "content-length"%string (headers m)))
  | None => Some (200, [("content-type"%string, "application/octet-stream"%string)])
  end.

(** the bytes of the buffer sent first, when not empty *)
Definition first_items (buffer : bytes) : list body_item :=
  match buffer with
  | [] => []
  | _ => [BodyOk buffer]
  end.

(** prelude detection followed by the relayed body *)
Definition decode_stream (from_str : string -> option MetadataPrelude) (evs : list recv)
  : option (option MetadataPrelude * list body_item) :=
  match collect from_str [] evs with
  | None => None
  | Some (metadata, buffer, rest) => Some (metadata, first_items buffer ++ relay rest)
  end.

(** [handle_streaming_response] *)
Definition handle_streaming_response (from_str : string -> option MetadataPrelude)
  (evs : list recv) : response :=
  match decode_stream from_str evs with
  | None => internal_error
  | Some (metadata, items) => finish (create_response_builder metadata) (Streamed items)
  end.

(** a backend stream of chunks ended by the completion marker *)
Definition chunks_stream (cs : list (option bytes)) : list recv :=
  map (fun c => RecvOk (PayloadChunk c)) cs ++ [RecvOk InvokeComplete].

(** every byte the chunks carry, in order *)
Definition all_bytes (cs : list (option bytes)) : bytes :=
  List.concat (map (fun c => match c with Some d => d | None => [] end) cs).

(** every byte a streamed body delivers, in order *)
Definition body_bytes (items : list body_item) : bytes :=
  List.concat (map (fun it => match it with BodyOk d => d | BodyErr => [] end) items).

(** some suffix of [xs] starts with eight NULs *)
Fixpoint has_nul_run8 (xs : bytes) : bool :=
  match xs with
  | [] => false
  | _ :: xs' => bytes_eqb (firstn 8 xs) (nuls 8) || has_nul_run8 xs'
  end.

End Streaming.

(* ------------------------------------------------------------------ *)
(** ** [src/buffered.rs] *)

Module Buffered.

(** a JSON value as [serde_json] reads it (integral numbers only) *)
#[local] Set Warnings "-register-all".
Inductive json :=
| JNull
| JBool (b : bool)
| JNumber (z : Z)
| JString (s : string)
| JArray (items : list json)
| JObject (fields : list (string * json)).

(** [aws_lambda_events::alb::AlbTargetGroupResponse] *)
Record AlbTargetGroupResponse := mk_alb {
  status_code : Z;
  status_description : option string;
  headers : header_map;
  multi_value_headers : header_map;
  body : option string;
  is_base64_encoded : bool
}.

Definition field (name : string) (fields : list (string * json)) : option json :=
  match find (fun kv => String.eqb (fst kv) name) fields with
  | Some (_, v) => Some v
  | None => None
  end.

Definition field_count (name : string) (fields : list (string * json)) : nat :=
  List.length (filter (fun kv => String.eqb (fst kv) name) fields).

Definition known_fields : list string :=
  ["statusCode"; "statusDescription"; "headers"; "multiValueHeaders"; "body";
   "isBase64Encoded"]%string.

Definition i64_range (z : Z) : bool :=
  ((- 2 ^ 63 <=? z) && (z <? 2 ^ 63))%Z.

Section Decoder.

(** [http_serde::header_map::deserialize]; [None] is an [Err] *)
Variable header_map_of_json : json -> option header_map.

(** a field with [#[serde(default)]]: absent means [dflt] *)
Definition default_field {A} (name : string) (fields : list (string * json))
  (dflt : A) (conv : json -> option A) : option A :=
  match field name fields with
  | None => Some dflt
  | Some v => conv v
  end.

Definition opt_string (v : json) : option (option string) :=
  match v with
  | JNull => Some None
  | JString s => Some (Some s)
  | _ => None
  end.

(** [deserialize_nullish_boolean]: [null] reads as [false] *)
Definition nullish_boolean (v : json) : option bool :=
  match v with
  | JNull => Some false
  | JBool b => Some b
  | _ => None
  end.

(** the required [status_code: i64] *)
Definition status_field (f : option json) : option Z :=
  match f with
  | Some (JNumber z) => if i64_range z then Some z else None
  | _ => None
  end.

(** [#[derive(Deserialize)]] of [AlbTargetGroupResponse] from a JSON
    object: [statusCode] is required, every other field has a default
    ([Option] fields read an absent field as [None]); a repeated field is
    an error, unknown fields are skipped. *)
Definition alb_of_json (v : json) : option AlbTargetGroupResponse :=
  match v with
  | JObject fs =>
      if existsb (fun n => 1 <? field_count n fs) known_fields then None else
      Base64.obind (status_field (field "statusCode" fs)) (fun sc =>
      Base64.obind (default_field "statusDescription" fs None opt_string) (fun sd =>
      Base64.obind (default_field "headers" fs [] header_map_of_json) (fun hs =>
      Base64.obind (default_field "multiValueHeaders" fs [] header_map_of_json) (fun mhs =>
      Base64.obind (default_field "body" fs None opt_string) (fun b =>
      Base64.obind (default_field "isBase64Encoded" fs false nullish_boolean) (fun enc =>
      Some (mk_alb sc sd hs mhs b enc)))))))
  | _ => None
  end.


(** the response built from a deserialized reply: the status goes through
    [i64::try_into::<u16>] and [StatusCode::from_u16] (which accepts
    100..=999), the headers are copied, the body is base64-decoded when
    flagged; every failure is [handle_err!]'s 500 with an empty body *)
Definition response_of_alb (r : AlbTargetGroupResponse) : response :=
  let s := status_code r in
  if negb ((0 <=? s) && (s <=? 65535))%Z then internal_error
  else
    let n := Z.to_nat s in
    if negb ((100 <=? n) && (n <? 1000)) then internal_error
    else
      let bd := match body r with
                | Some b => list_byte_of_string b
                | None => []
                end in
      if is_base64_encoded r then
        match Base64.decode bd with
        | Some decoded => mk_response n (headers r) (Full decoded)
        | None => internal_error
        end
      else mk_response n (headers r) (Full bd).

(** [handle_buffered_response] after [serde_json] has read the payload
    text: [None] is a payload that is not JSON *)
Definition handle_buffered_json (v : option json) : response :=
  match v with
  | None => internal_error
  | Some j =>
      match alb_of_json j with
      | None => internal_error
      | Some r => response_of_alb r
      end
  end.

(** [serde_json::from_slice]: the JSON text reader; [None] is an [Err] *)
Variable json_of_slice : bytes -> option json.

(** [handle_buffered_response]: [resp.payload()], or no bytes when absent *)
Definition handle_buffered_response (payload : option bytes) : response :=
  handle_buffered_json
    (json_of_slice (match payload with Some p => p | None => [] end)).

End Decoder.
End Buffered.

(* ------------------------------------------------------------------ *)
(** ** The request closure of [handler_factory] ([src/lib.rs]) *)

Module Gateway.

(** [config::AuthMode] *)
Inductive AuthMode :=
| ApiKeys (keys : list string).

(** [config::LambdaInvokeMode] *)
Inductive LambdaInvokeMode :=
| Buffered
| ResponseStream.

(** [config::Target] (the payload mode has the single variant [ALB]) *)
Record Target := mk_target {
  function : string;
  auth : option AuthMode;
  invoke : LambdaInvokeMode
}.

(** the parts of the inbound request the closure reads, after
    [Query::try_from_uri] and [to_bytes] *)
Record Request := mk_request {
  method : string;
  path : string;
  query : list (string * string);
  req_headers : header_map;
  req_body : bytes
}.

(** the [PayloadMode::ALB] payload, before [to_string()] *)
Record AlbRequestBody := mk_alb_request {
  http_method : string;
  alb_headers : header_map;
  alb_path : string;
  query_string_parameters : list (string * string);
  alb_is_base64_encoded : bool;
  alb_body : string
}.

(** the work the closure performs, in the order it performs it *)
Inductive op :=
| OpClassify
| OpTransformBody
| OpAuthorize
| OpBuildPayload
| OpInvoke (mode : LambdaInvokeMode).

(** a state monad whose state is the log of performed operations *)
Definition M (A : Type) := list op -> A * list op.

Definition ret {A} (a : A) : M A := fun log => (a, log).

Definition bind {A B} (m : M A) (f : A -> M B) : M B :=
  fun log => let (a, log') := m log in f a log'.

Definition perform {A} (o : op) (a : A) : M A := fun log => (a, log ++ [o]).

Notation "x <- m ;; k" := (bind m (fun x => k))
  (at level 61, m at next level, right associativity).

Definition strip_prefix (p s : string) : option string :=
  if String.prefix p s then Some (substring (String.length p) (String.length s - String.length p) s)
  else None.

(** the API key: [x-api-key], else [authorization] without [Bearer ],
    else the empty string *)
Definition api_key (headers : header_map) : string :=
  match Base64.obind (get "x-api-key" headers) to_str with
  | Some k => k
  | None =>
      match Base64.obind (Base64.obind (get "authorization" headers) to_str)
              (strip_prefix "Bearer ") with
      | Some k => k
      | None => ""
      end
  end.

(** [keys.contains(api_key)] *)
Definition key_accepted (keys : list string) (headers : header_map) : bool :=
  existsb (String.eqb (api_key headers)) keys.

Definition unauthorized : response := mk_response 401 [] (Full []).

Section Handler.

(** the backend client and the decoder of its reply
    ([client.invoke()...send()] then [handle_*_response]) *)
Variable backend : LambdaInvokeMode -> string -> AlbRequestBody -> response.

(** the closure passed to [any(..)]; the content-type match it inlines
    is [whether_should_base64_encode] *)
Definition handler (target : Target) (req : Request) : M response :=
  is_base64_encoded <- perform OpClassify
    (Utils.whether_should_base64_encode (req_headers req)) ;;
  body <- perform OpTransformBody (Utils.transform_body is_base64_encoded (req_body req)) ;;
  authorized <- match auth target with
                | Some (ApiKeys keys) => perform OpAuthorize (key_accepted keys (req_headers req))
                | None => ret true
                end ;;
  if negb authorized then ret unauthorized
  else
    lambda_request_body <- perform OpBuildPayload
      (mk_alb_request (method req) (req_headers req) (path req) (query req)
         is_base64_encoded body) ;;
    perform (OpInvoke (invoke target))
      (backend (invoke target) (function target) lambda_request_body).

End Handler.
End Gateway.

(* ------------------------------------------------------------------ *)
(** ** [src/config.rs]: the configuration read by [auth.rs] *)

Module Config.

(** [config::AuthMode] *)
Inductive AuthMode :=
| Open
| ApiKey.

(** [config::LambdaInvokeMode] *)
Inductive LambdaInvokeMode :=
| Buffered
| ResponseStream.

(** [config::Config]; the [HashSet] of keys is a list read by membership *)
Record Config := mk_config {
  lambda_function_name : string;
  lambda_invoke_mode : LambdaInvokeMode;
  api_keys : list string;
  auth_mode : AuthMode;
  addr : string
}.

Definition default_addr : string := "0.0.0.0:8000".

(** [Config::default()] *)
Definition default_config : Config := mk_config "" Buffered [] Open default_addr.

(** [str::split(',')]: the fields between commas, empty ones included *)
Fixpoint split_comma (s : string) : list string :=
  match s with
  | EmptyString => [EmptyString]
  | String c s' =>
      let fields := split_comma s' in
      if Ascii.eqb c ","%char then EmptyString :: fields
      else match fields with
           | f :: fs => String c f :: fs
           | [] => [String c EmptyString]
           end
  end.

Section Env.

(** [env::var]: [None] is an [Err] *)
Variable env : string -> option string.

(** [str::to_lowercase] *)
Variable to_lowercase : string -> string.

(** [AuthMode::from_str] *)
Definition auth_mode_from_str (s : string) : option AuthMode :=
  let l := to_lowercase s in
  if String.eqb l "open" then Some Open
  else if String.eqb l "apikey" then Some ApiKey
  else None.

(** [LambdaInvokeMode::from_str] *)
Definition invoke_mode_from_str (s : string) : option LambdaInvokeMode :=
  let l := to_lowercase s in
  if String.eqb l "buffered" then Some Buffered
  else if String.eqb l "responsestream" then Some ResponseStream
  else None.

(** [val.split(',').filter(|s| !s.is_empty()).map(String::from).collect()] *)
Definition api_keys_of (val : string) : list string :=
  filter (fun k => negb (String.eqb k "")) (split_comma val).

(** [apply_env_overrides]; [None] is its [panic!] *)
Definition apply_env_overrides (c : Config) : option Config :=
  let c1 := match env "LAMBDA_FUNCTION_NAME" with
            | Some v => mk_config v (lambda_invoke_mode c) (api_keys c) (auth_mode c) (addr c)
            | None => c
            end in
  if String.eqb (lambda_function_name c1) "" then None else
  let c2 := match Base64.obind (env "LAMBDA_INVOKE_MODE") invoke_mode_from_str with
            | Some m => mk_config (lambda_function_name c1) m (api_keys c1) (auth_mode c1) (addr c1)
            | None => c1
            end in
  let c3 := match env "API_KEYS" with
            | Some v => mk_config (lambda_function_name c2) (lambda_invoke_mode c2)
                          (api_keys_of v) (auth_mode c2) (addr c2)
            | None => c2
            end in
  let c4 := match Base64.obind (env "AUTH_MODE") auth_mode_from_str with
            | Some m => mk_config (lambda_function_name c3) (lambda_invoke_mode c3)
                          (api_keys c3) m (addr c3)
            | None => c3
            end in
  let c5 := match env "ADDR" with
            | Some v => mk_config (lambda_function_name c4) (lambda_invoke_mode c4)
                          (api_keys c4) (auth_mode c4) v
            | None => c4
            end in
  Some c5.

(** [Config::load]: the file's configuration ([load_from_file]; [None] is
    its error), or the default one, then the environment overrides *)
Definition load (from_file : option Config) : option Config :=
  apply_env_overrides (match from_file with Some c => c | None => default_config end).

End Env.
End Config.

(* ------------------------------------------------------------------ *)
(** ** [src/auth.rs] *)

Module Auth.

(** [is_authorized]: the key is read as in the request closure
    ([Gateway.api_key]); [HashSet::contains] *)
Definition is_authorized (headers : header_map) (config : Config.Config) : bool :=
  match Config.auth_mode config with
  | Config.Open => true
  | Config.ApiKey => existsb (String.eqb (Gateway.api_key headers)) (Config.api_keys config)
  end.

End Auth.

(* ------------------------------------------------------------------ *)
(** ** Header maps turned into [HashMap<String, String>] *)

Module Maps.

(** a [HashMap<String, String>]: at most one entry per key *)
Definition hash_map := list (string * string).

(** [HashMap::insert]: a new value replaces the old one *)
Definition hm_insert (k v : string) (m : hash_map) : hash_map :=
  (k, v) :: filter (fun kv => negb (String.eqb (fst kv) k)) m.

(** [HashMap::get] *)
Definition hm_get (k : string) (m : hash_map) : option string :=
  match find (fun kv => String.eqb (fst kv) k) m with
  | Some (_, v) => Some v
  | None => None
  end.

(** [Iterator::collect] into a [HashMap]: the pairs inserted in order *)
Definition collect (kvs : list (string * string)) : hash_map :=
  fold_left (fun m kv => hm_insert (fst kv) (snd kv) m) kvs [].

(** [to_string_map] of [src/lib.rs]: every (name, value) pair of the
    header map, the value read with [String::from_utf8_lossy] *)
Definition to_string_map (headers : header_map) : hash_map :=
  collect (map (fun kv => (fst kv, Utf8.from_utf8_lossy (list_byte_of_string (snd kv))))
               headers).

(** [header_map_to_hash_map] of [src/request.rs]: [v.to_str().unwrap()];
    [None] is the panic of [unwrap] *)
Definition header_map_to_hash_map (map : header_map) : option hash_map :=
  fold_left (fun acc kv =>
               match acc with
               | None => None
               | Some m =>
                   match to_str (snd kv) with
                   | Some v => Some (hm_insert (fst kv) v m)
                   | None => None
                   end
               end) map (Some []).

End Maps.

(* ------------------------------------------------------------------ *)
(** ** The streaming decoder of [src/lib.rs] *)

Module Lib.
Import Streaming.

Section Decoder.

Variable from_str : string -> option MetadataPrelude.

(** the loop of [process_buffer]; [xs] is the part of [buffer] not yet
    visited, [i] the index of its head *)
Fixpoint process_loop (buffer xs : bytes) (i null_count : nat)
  : option MetadataPrelude * bytes :=
  match xs with
  | [] => (None, [])
  | byte :: xs' =>
      if Byte.eqb byte nul then
        if S null_count =? 8 then
          (Some (parse_prelude from_str (firstn i buffer)), skipn (i + 1) buffer)
        else process_loop buffer xs' (S i) (S null_count)
      else process_loop buffer xs' (S i) 0
  end.

(** [process_buffer]: the prelude text is [buffer[..i]] *)
Definition process_buffer (buffer : bytes) : option MetadataPrelude * bytes :=
  process_loop buffer buffer 0 0.

(** [detect_metadata]: the first event, when it is a chunk with a payload;
    the event is consumed in every case *)
Definition detect_metadata (evs : list recv) : bool * option bytes * list recv :=
  match evs with
  | RecvOk (PayloadChunk (Some bytes)) :: rest =>
      (Streaming.detect_metadata bytes, Some bytes, rest)
  | _ :: rest => (false, None, rest)
  | [] => (false, None, [])
  end.

(** the [while let Ok(Some(event))] loop of [collect_metadata]: chunks
    without a payload and other events are skipped; an error or the end
    of the stream ends it with no prelude and no data *)
Fixpoint collect_loop (buffer : bytes) (evs : list recv)
  : option MetadataPrelude * bytes * list recv :=
  match evs with
  | [] => (None, [], [])
  | RecvErr :: rest => (None, [], rest)
  | RecvOk (PayloadChunk (Some data)) :: rest =>
      let buffer' := buffer ++ data in
      match process_buffer buffer' with
      | (Some p, remaining) => (Some p, remaining, rest)
      | (None, _) => collect_loop buffer' rest
      end
  | RecvOk _ :: rest => collect_loop buffer rest
  end.

(** [collect_metadata] *)
Definition collect_metadata (buffer : bytes) (evs : list recv)
  : option MetadataPrelude * bytes * list recv :=
  match process_buffer buffer with
  | (Some p, remaining) => (Some p, remaining, evs)
  | (None, _) => collect_loop buffer evs
  end.

End Decoder.

(** the spawned task and the [map] of the receiver stream: every payload
    is sent (empty or not), the completion marker becomes an empty chunk,
    and a receive error panics the task ([unwrap]), which closes the body *)
Fixpoint relay (evs : list recv) : list body_item :=
  match evs with
  | [] => []
  | RecvErr :: _ => []
  | RecvOk (PayloadChunk (Some data)) :: rest => BodyOk data :: relay rest
  | RecvOk (PayloadChunk None) :: rest => relay rest
  | RecvOk InvokeComplete :: rest => BodyOk [] :: relay rest
  | RecvOk Unknown :: rest => relay rest
  end.

(** [builder.header(k, v)] with a [HeaderName] and a [HeaderValue]: no
    conversion can fail *)
Definition builder_append (k v : string) (b : builder) : builder :=
  match b with
  | Some (s, h) => Some (s, h ++ [(k, v)])
  | None => None
  end.

(** the response head built at the end of [handle_streaming_response] *)
Definition response_builder (metadata_prelude : option MetadataPrelude) : builder :=
  match metadata_prelude with
  | Some m =>
      fold_left (fun b cookie => builder_header "set-cookie"%string cookie b) (cookies m)
        (fold_left (fun b kv =>
                      if negb (String.eqb (fst kv) "content-length") then
                        builder_append (fst kv) (snd kv) b
                      else b)
           (headers m) (Some (status_code m, [])))
  | None => Some (200, [("content-type"%string, "application/octet-stream"%string)])
  end.

(** [handle_streaming_response] of [src/lib.rs]; [None] is the panic of
    the final [unwrap] *)
Definition handle_streaming_response (from_str : string -> option MetadataPrelude)
  (evs : list recv) : option response :=
  let '(has_metadata, first_chunk, rest) := detect_metadata evs in
  let '(metadata_prelude, remaining_data, rest') :=
    match first_chunk with
    | Some chunk =>
        if has_metadata then collect_metadata from_str chunk rest else (None, chunk, rest)
    | None => (None, [], rest)
    end in
  match response_builder metadata_prelude with
  | Some (s, h) => Some (mk_response s h (Streamed (first_items remaining_data ++ relay rest')))
  | None => None
  end.

End Lib.

(* ------------------------------------------------------------------ *)
(** ** Concrete inputs used by the examples below *)

Module Samples.

(** [{], the delimiter, then [A] *)
Definition prelude_then_a : bytes := [Byte.x7b] ++ nuls 8 ++ [Byte.x41].

(** [oops] *)
Definition oops : bytes := [Byte.x6f; Byte.x6f; Byte.x70; Byte.x73].

(** the prelude of the scenario of the spec: status 500, a content type,
    a content length and two cookies *)
Definition scenario_prelude : Streaming.MetadataPrelude :=
  Streaming.mk_prelude 500
    [("content-type", "text/plain"); ("content-length", "0")]%string
    ["a"; "b"]%string.

(** a prelude whose cookie holds a line feed *)
Definition bad_cookie_prelude : Streaming.MetadataPrelude :=
  Streaming.mk_prelude 201 [] [string_of_list_byte [Byte.x61; Byte.x0a; Byte.x62]].

(** [text/é], with the UTF-8 bytes of [é] *)
Definition text_e_acute : string :=
  string_of_list_byte [Byte.x74; Byte.x65; Byte.x78; Byte.x74; Byte.x2f; Byte.xc3; Byte.xa9].

End Samples.

(* ================================================================== *)
(** * Facts about the streaming decoder *)

Module StreamingFacts.
Import Streaming.

Lemma bytes_eqb_eq (a b : bytes) : bytes_eqb a b = true <-> a = b.
Proof.
  revert b; induction a as [|x a IH]; intros [|y b]; simpl; split; intro H;
    try discriminate; try reflexivity.
  - apply andb_prop in H as [Hx Hab].
    apply Byte.byte_dec_bl in Hx; apply IH in Hab; subst; reflexivity.
  - injection H as -> ->. rewrite Byte.byte_dec_lb by reflexivity.
    simpl; apply IH; reflexivity.
Qed.

Lemma nuls_S_app (n : nat) (xs : bytes) : nuls n ++ nul :: xs = nuls (S n) ++ xs.
Proof.
  unfold nuls; change (nul :: xs) with ([nul] ++ xs).
  rewrite app_assoc, <- repeat_cons; reflexivity.
Qed.

Lemma nuls_add (n m : nat) : nuls (n + m) = nuls n ++ nuls m.
Proof. apply repeat_app. Qed.

Lemma length_nuls (n : nat) : List.length (nuls n) = n.
Proof. apply repeat_length. Qed.

Lemma has_nul_run8_cons (x : Byte.byte) (xs : bytes) :
  has_nul_run8 (x :: xs) = bytes_eqb (firstn 8 (x :: xs)) (nuls 8) || has_nul_run8 xs.
Proof. reflexivity. Qed.

Lemma has_nul_run8_nuls8 (post : bytes) : has_nul_run8 (nuls 8 ++ post) = true.
Proof. reflexivity. Qed.

(** a run in a suffix is a run of the whole *)
Lemma has_nul_run8_suffix (a b : bytes) :
  has_nul_run8 b = true -> has_nul_run8 (a ++ b) = true.
Proof.
  induction a as [|x a IH]; intro H; [exact H|].
  rewrite <- app_comm_cons, has_nul_run8_cons, (IH H); apply orb_true_r.
Qed.

(** a run in a prefix is a run of the whole *)
Lemma has_nul_run8_prefix (a b : bytes) :
  has_nul_run8 a = true -> has_nul_run8 (a ++ b) = true.
Proof.
  induction a as [|x a IH]; intro H; [discriminate|].
  rewrite has_nul_run8_cons in H. rewrite <- app_comm_cons, has_nul_run8_cons.
  apply orb_true_iff in H as [H|H].
  - apply bytes_eqb_eq in H.
    assert (Hlen : 8 <= List.length (x :: a)).
    { pose proof (f_equal (@List.length _) H) as HL.
      rewrite length_firstn, length_nuls in HL. lia. }
    rewrite app_comm_cons, firstn_app.
    replace (8 - List.length (x :: a)) with 0 by lia.
    rewrite app_nil_r, H; reflexivity.
  - rewrite (IH H); apply orb_true_r.
Qed.

Lemma no_run_suffix (a b : bytes) :
  has_nul_run8 (a ++ b) = false -> has_nul_run8 b = false.
Proof.
  intro H; destruct (has_nul_run8 b) eqn:E; [|reflexivity].
  rewrite (has_nul_run8_suffix a b E) in H; discriminate.
Qed.

Lemma no_run_prefix (a b : bytes) :
  has_nul_run8 (a ++ b) = false -> has_nul_run8 a = false.
Proof.
  intro H; destruct (has_nul_run8 a) eqn:E; [|reflexivity].
  rewrite (has_nul_run8_prefix a b E) in H; discriminate.
Qed.

(** the first run of eight NULs splits the list *)
Lemma first_nul_run8 (xs : bytes) :
  has_nul_run8 xs = true ->
  exists pre post, xs = pre ++ nuls 8 ++ post /\ has_nul_run8 (pre ++ nuls 7) = false.
Proof.
  induction xs as [|x xs IH]; intro H; [discriminate|].
  rewrite has_nul_run8_cons in H.
  destruct (bytes_eqb (firstn 8 (x :: xs)) (nuls 8)) eqn:E.
  - apply bytes_eqb_eq in E.
    exists [], (skipn 8 (x :: xs)). split; [|reflexivity].
    rewrite app_nil_l, <- E. symmetry; apply firstn_skipn.
  - rewrite orb_false_l in H. destruct (IH H) as (pre & post & Hxs & Hno).
    exists (x :: pre), post. split; [rewrite Hxs; reflexivity|].
    rewrite <- app_comm_cons, has_nul_run8_cons, Hno, orb_false_r.
    rewrite <- E. f_equal. rewrite Hxs.
    assert (Hsplit : x :: pre ++ nuls 8 ++ post = (x :: pre ++ nuls 7) ++ nul :: post)
      by (rewrite <- nuls_S_app, <- app_comm_cons, <- app_assoc; reflexivity).
    rewrite Hsplit, firstn_app.
    replace (8 - List.length (x :: pre ++ nuls 7)) with 0
      by (simpl List.length; rewrite length_app, length_nuls; lia).
    rewrite app_nil_r; reflexivity.
Qed.

Lemma firstn_app_length {A} (l m : list A) : firstn (List.length l) (l ++ m) = l.
Proof.
  rewrite firstn_app, firstn_all, Nat.sub_diag; simpl; apply app_nil_r.
Qed.

Lemma skipn_app_length_add {A} (l m : list A) (n : nat) :
  skipn (List.length l + n) (l ++ m) = skipn n m.
Proof.
  rewrite skipn_app, skipn_all2 by lia. simpl. f_equal; lia.
Qed.

Section Loop.

Variable from_str : string -> option MetadataPrelude.

Lemma loop_no_run (buffer xs : bytes) :
  forall i nc, nc < 8 -> has_nul_run8 (nuls nc ++ xs) = false ->
  try_parse_loop from_str buffer xs i nc = None.
Proof.
  induction xs as [|x xs IH]; intros i nc Hnc Hno; [reflexivity|].
  cbn [try_parse_loop]. destruct (Byte.eqb x nul) eqn:Ex; cbn [negb].
  - apply Byte.byte_dec_bl in Ex; subst x.
    rewrite nuls_S_app in Hno.
    destruct (S nc =? 8) eqn:E8.
    + apply Nat.eqb_eq in E8; rewrite E8, has_nul_run8_nuls8 in Hno; discriminate.
    + apply Nat.eqb_neq in E8. apply IH; [lia|exact Hno].
  - apply IH; [lia|]. apply (no_run_suffix (nuls nc ++ [x])).
    rewrite <- app_assoc; exact Hno.
Qed.

Lemma loop_skip (buffer ys : bytes) (y : Byte.byte) (zs : bytes) :
  y <> nul ->
  forall i nc, nc < 8 -> has_nul_run8 (nuls nc ++ ys) = false ->
  try_parse_loop from_str buffer (ys ++ y :: zs) i nc
  = try_parse_loop from_str buffer zs (i + List.length ys + 1) 0.
Proof.
  intro Hy. induction ys as [|x ys IH]; intros i nc Hnc Hno.
  - cbn [app try_parse_loop]. destruct (Byte.eqb y nul) eqn:Ey.
    + apply Byte.byte_dec_bl in Ey; contradiction.
    + cbn [negb List.length]; rewrite Nat.add_0_r, Nat.add_1_r; reflexivity.
  - cbn [app try_parse_loop]. destruct (Byte.eqb x nul) eqn:Ex; cbn [negb].
    + apply Byte.byte_dec_bl in Ex; subst x.
      rewrite nuls_S_app in Hno.
      destruct (S nc =? 8) eqn:E8.
      * apply Nat.eqb_eq in E8; rewrite E8, has_nul_run8_nuls8 in Hno; discriminate.
      * apply Nat.eqb_neq in E8. rewrite IH by (lia || exact Hno).
        f_equal; simpl; lia.
    + rewrite IH; [f_equal; simpl; lia|lia|].
      apply (no_run_suffix (nuls nc ++ [x])); rewrite <- app_assoc; exact Hno.
Qed.

Lemma loop_hit (buffer post : bytes) (i : nat) :
  try_parse_loop from_str buffer (nuls 8 ++ post) i 0
  = Some (parse_prelude from_str (firstn i buffer), skipn (i + 8) buffer).
Proof.
  cbn -[parse_prelude firstn skipn].
  match goal with
  | |- Some (parse_prelude _ (firstn ?a _), skipn ?b _) = _ =>
      replace a with i by lia; replace b with (i + 8) by lia
  end.
  reflexivity.
Qed.

(** the scan of [try_parse_metadata] stops at the first run *)
Lemma try_parse_first_run (pre post : bytes) :
  has_nul_run8 (pre ++ nuls 7) = false ->
  try_parse_metadata from_str (pre ++ nuls 8 ++ post)
  = Some (parse_prelude from_str pre, post).
Proof.
  intro Hno. unfold try_parse_metadata.
  destruct pre as [|p0 pre'] using rev_ind.
  - rewrite !app_nil_l, loop_hit. reflexivity.
  - clear IHpre'.
    assert (Hp0 : p0 <> nul).
    { intros ->. rewrite <- app_assoc in Hno.
      change ([nul] ++ nuls 7) with (nuls 8 ++ []) in Hno.
      rewrite (has_nul_run8_suffix pre' _ (has_nul_run8_nuls8 [])) in Hno; discriminate. }
    assert (Hpre : has_nul_run8 (nuls 0 ++ pre') = false).
    { apply (no_run_prefix _ ([p0] ++ nuls 7)).
      change (nuls 0 ++ pre') with pre'. rewrite app_assoc; exact Hno. }
    set (buf := (pre' ++ [p0]) ++ nuls 8 ++ post).
    assert (Hxs : buf = pre' ++ p0 :: nuls 8 ++ post) by (unfold buf; rewrite <- app_assoc; reflexivity).
    rewrite Hxs at 2. rewrite loop_skip by (assumption || lia).
    rewrite loop_hit. unfold buf.
    replace (0 + List.length pre' + 1) with (List.length (pre' ++ [p0]))
      by (rewrite length_app; simpl; lia).
    rewrite firstn_app_length, skipn_app_length_add. reflexivity.
Qed.

Lemma try_parse_no_run (buffer : bytes) :
  has_nul_run8 buffer = false -> try_parse_metadata from_str buffer = None.
Proof. intro H. apply loop_no_run; [lia|exact H]. Qed.

Lemma try_parse_some (buffer rem : bytes) (p : MetadataPrelude) :
  try_parse_metadata from_str buffer = Some (p, rem) ->
  exists pre, buffer = pre ++ nuls 8 ++ rem /\ has_nul_run8 (pre ++ nuls 7) = false
              /\ p = parse_prelude from_str pre.
Proof.
  intro H. destruct (has_nul_run8 buffer) eqn:E.
  - destruct (first_nul_run8 buffer E) as (pre & post & -> & Hno).
    rewrite try_parse_first_run in H by exact Hno.
    injection H as <- <-. exists pre; auto.
  - rewrite try_parse_no_run in H by exact E; discriminate.
Qed.

End Loop.

Lemma body_bytes_app (a b : list body_item) :
  body_bytes (a ++ b) = body_bytes a ++ body_bytes b.
Proof. unfold body_bytes; rewrite map_app, concat_app; reflexivity. Qed.

Lemma body_bytes_first_items (buf : bytes) : body_bytes (first_items buf) = buf.
Proof. destruct buf; unfold body_bytes; simpl; rewrite ?app_nil_r; reflexivity. Qed.

Lemma all_bytes_cons (c : option bytes) (cs : list (option bytes)) :
  all_bytes (c :: cs) = match c with Some d => d | None => [] end ++ all_bytes cs.
Proof. reflexivity. Qed.

(** the relay delivers every byte of the chunks it receives, in order *)
Lemma relay_chunks (cs : list (option bytes)) :
  body_bytes (relay (chunks_stream cs)) = all_bytes cs.
Proof.
  induction cs as [|[d|] cs IH]; [reflexivity| |exact IH].
  unfold chunks_stream in *; simpl map; simpl app.
  rewrite all_bytes_cons, <- IH. destruct d as [|b d]; [reflexivity|].
  unfold body_bytes; simpl; reflexivity.
Qed.

Lemma chunks_stream_cons (c : option bytes) (cs : list (option bytes)) :
  chunks_stream (c :: cs) = RecvOk (PayloadChunk c) :: chunks_stream cs.
Proof. reflexivity. Qed.

Lemma get_all_app (k : string) (a b : header_map) :
  get_all k (a ++ b) = get_all k a ++ get_all k b.
Proof. unfold get_all; rewrite filter_app, map_app; reflexivity. Qed.

Lemma get_all_remove (k k' : string) (h : header_map) :
  get_all k (remove k' h) = if String.eqb k k' then [] else get_all k h.
Proof.
  unfold get_all, remove.
  induction h as [|[n v] h IH]; [destruct (String.eqb k k'); reflexivity|].
  cbn [filter fst].
  destruct (String.eqb_spec n k') as [E1|E1], (String.eqb_spec n k) as [E2|E2];
    cbn [negb filter fst map snd].
  - subst. rewrite String.eqb_refl in IH |- *. exact IH.
  - exact IH.
  - subst. destruct (String.eqb_spec k k') as [E3|E3]; [contradiction|].
    rewrite String.eqb_refl. cbn [map snd]. rewrite IH. reflexivity.
  - destruct (String.eqb_spec n k) as [E4|E4]; [contradiction|]. exact IH.
Qed.

Lemma get_all_cookies (k : string) (cs : list string) :
  get_all k (map (fun c => ("set-cookie"%string, c)) cs)
  = if String.eqb k "set-cookie" then cs else [].
Proof.
  induction cs as [|c cs IH]; [destruct (String.eqb k "set-cookie"); reflexivity|].
  unfold get_all in *. cbn [map filter fst].
  rewrite (String.eqb_sym "set-cookie"). destruct (String.eqb k "set-cookie");
    cbn [map snd]; rewrite IH; reflexivity.
Qed.

Lemma fold_cookies_valid (cs : list string) :
  forallb valid_header_value cs = true ->
  forall s h,
  fold_left (fun b cookie => builder_header "set-cookie" cookie b) cs (Some (s, h))
  = Some (s, h ++ map (fun c => ("set-cookie"%string, c)) cs).
Proof.
  induction cs as [|c cs IH]; intros Hv s h; [rewrite app_nil_r; reflexivity|].
  simpl in Hv. apply andb_prop in Hv as [Hc Hcs].
  cbn [fold_left]. unfold builder_header at 2. rewrite Hc.
  rewrite IH by exact Hcs. rewrite <- app_assoc; reflexivity.
Qed.

Lemma fold_cookies_none (cs : list string) :
  fold_left (fun b cookie => builder_header "set-cookie" cookie b) cs None = None.
Proof. induction cs; [reflexivity|exact IHcs]. Qed.

Lemma fold_cookies_invalid (cs : list string) :
  forallb valid_header_value cs = false ->
  forall s h,
  fold_left (fun b cookie => builder_header "set-cookie" cookie b) cs (Some (s, h)) = None.
Proof.
  induction cs as [|c cs IH]; intros Hv s h; [discriminate|].
  simpl in Hv. cbn [fold_left]. unfold builder_header at 2.
  destruct (valid_header_value c); [apply IH; exact Hv|apply fold_cookies_none].
Qed.

Section Collect.

Variable from_str : string -> option MetadataPrelude.

(** what prelude detection leaves for the body, on a chunk stream *)
Lemma collect_chunks (cs : list (option bytes)) :
  forall buf,
  match collect from_str buf (chunks_stream cs) with
  | None => False
  | Some (None, rem, rest) => rem ++ body_bytes (relay rest) = buf ++ all_bytes cs
  | Some (Some p, rem, rest) =>
      exists pre, buf ++ all_bytes cs = pre ++ nuls 8 ++ rem ++ body_bytes (relay rest)
                  /\ has_nul_run8 (pre ++ nuls 7) = false
                  /\ p = parse_prelude from_str pre
  end.
Proof.
  induction cs as [|[d|] cs IH]; intro buf.
  - simpl. reflexivity.
  - rewrite chunks_stream_cons. cbn [collect].
    destruct (negb (detect_metadata (buf ++ d))).
    + rewrite relay_chunks, all_bytes_cons, app_assoc; reflexivity.
    + destruct (try_parse_metadata from_str (buf ++ d)) as [[p rem]|] eqn:E.
      * destruct (try_parse_some from_str _ _ _ E) as (pre & Hbuf & Hno & Hp).
        exists pre. split; [|split; assumption].
        rewrite all_bytes_cons, app_assoc, Hbuf, relay_chunks, !app_assoc; reflexivity.
      * specialize (IH (buf ++ d)).
        destruct (collect from_str (buf ++ d) (chunks_stream cs)) as [[[[p|] rem] rest]|];
          rewrite ?all_bytes_cons, ?app_assoc; exact IH.
  - rewrite chunks_stream_cons. cbn [collect].
    rewrite relay_chunks; reflexivity.
Qed.


(** chunks that keep a ['{']-led buffer free of a delimiter only grow it *)
Lemma collect_run_free (more : list recv) (gs : list bytes) :
  forall buf,
  detect_metadata buf = true ->
  has_nul_run8 (buf ++ List.concat gs) = false ->
  collect from_str buf (map (fun c => RecvOk (PayloadChunk (Some c))) gs ++ more)
  = collect from_str (buf ++ List.concat gs) more.
Proof.
  induction gs as [|g gs IH]; intros buf Hd Hno; [rewrite app_nil_r; reflexivity|].
  cbn [map app collect].
  assert (Hd' : detect_metadata (buf ++ g) = true) by (destruct buf; [discriminate|exact Hd]).
  rewrite Hd'. cbn [negb]. cbn [List.concat] in Hno. rewrite app_assoc in Hno.
  rewrite try_parse_no_run by exact (no_run_prefix _ _ Hno).
  rewrite IH by assumption. cbn [List.concat]. rewrite app_assoc. reflexivity.
Qed.

(** the same from the empty buffer, when the first chunk starts with ['{'] *)
Lemma collect_run_free_start (more : list recv) (gs : list bytes) :
  hd_error (hd [] gs) = Some lbrace ->
  has_nul_run8 (List.concat gs) = false ->
  collect from_str [] (map (fun c => RecvOk (PayloadChunk (Some c))) gs ++ more)
  = collect from_str (List.concat gs) more.
Proof.
  destruct gs as [|g gs]; [discriminate|]. destruct g as [|b g]; [discriminate|].
  intros Hh Hno. injection Hh as ->.
  cbn [map app collect].
  change (detect_metadata (lbrace :: g)) with true. cbn [negb].
  cbn [List.concat] in Hno.
  rewrite try_parse_no_run by exact (no_run_prefix _ _ Hno).
  apply collect_run_free; [reflexivity|exact Hno].
Qed.

(** the chunk that completes the first delimiter yields the prelude *)
Lemma collect_completing_chunk (buf c pre post : bytes) (rest : list recv) :
  detect_metadata (buf ++ c) = true ->
  buf ++ c = pre ++ nuls 8 ++ post ->
  has_nul_run8 (pre ++ nuls 7) = false ->
  collect from_str buf (RecvOk (PayloadChunk (Some c)) :: rest)
  = Some (Some (parse_prelude from_str pre), post, rest).
Proof.
  intros Hd Hbc Hno. cbn [collect]. rewrite Hd. cbn [negb].
  rewrite Hbc, try_parse_first_run by exact Hno. reflexivity.
Qed.

End Collect.
End StreamingFacts.

(* ================================================================== *)
(** * Facts about the codecs: base64 and UTF-8 *)

Module CodecFacts.
Import Base64.

Lemma sextet_roundtrip (k : nat) : k < 64 -> decode_sextet (encode_sextet k) = Some k.
Proof. intro H. do 64 (destruct k as [|k]; [reflexivity|]). lia. Qed.

Lemma sextet_not_pad (k : nat) : k < 64 -> is_pad (encode_sextet k) = false.
Proof. intro H. do 64 (destruct k as [|k]; [reflexivity|]). lia. Qed.

Lemma div_small_div (n a b : nat) : 0 < a -> n < a * b -> n / a / b = 0.
Proof. intros Ha Hn. apply Nat.div_small, Nat.Div0.div_lt_upper_bound. lia. Qed.

Lemma div_bound (n a b : nat) : 0 < a -> n < a * b -> n / a < b.
Proof. intros Ha Hn. apply Nat.Div0.div_lt_upper_bound. lia. Qed.

Ltac sextet_bounds :=
  repeat match goal with
  | |- context [?n mod ?m] =>
      lazymatch goal with _ : n mod m < m |- _ => fail | _ => idtac end;
      let H := fresh in assert (H : n mod m < m) by (apply Nat.mod_upper_bound; lia)
  | |- context [?n / ?m] =>
      lazymatch goal with _ : n / m < _ |- _ => fail | _ => idtac end;
      let b := eval vm_compute in (256 / m) in
      let H := fresh in assert (H : n / m < b) by (apply div_bound; lia)
  end; lia.

Lemma octet_of_nat (b : Byte.byte) : octet (Byte.to_nat b) = Some b.
Proof. apply Byte.of_to_nat. Qed.

Lemma arith_first n0 n1 : n1 < 256 -> n0 / 4 * 4 + (n0 mod 4 * 16 + n1 / 16) / 16 = n0.
Proof.
  intros H1. rewrite Nat.div_add_l, (div_small_div n1 16 16) by lia.
  pose proof (Nat.div_mod_eq n0 4). lia.
Qed.

Lemma arith_second n0 n1 n2 : n1 < 256 -> n2 < 256 ->
  (n0 mod 4 * 16 + n1 / 16) mod 16 * 16 + (n1 mod 16 * 4 + n2 / 64) / 4 = n1.
Proof.
  intros H1 H2. rewrite (Nat.add_comm (n0 mod 4 * 16)), Nat.Div0.mod_add.
  rewrite Nat.div_add_l, (div_small_div n2 64 4) by lia.
  rewrite (Nat.mod_small (n1 / 16) 16) by (apply div_bound; lia).
  pose proof (Nat.div_mod_eq n1 16). lia.
Qed.

Lemma arith_third n1 n2 : n2 < 256 -> (n1 mod 16 * 4 + n2 / 64) mod 4 * 64 + n2 mod 64 = n2.
Proof.
  intros H2. rewrite (Nat.add_comm (n1 mod 16 * 4)), Nat.Div0.mod_add.
  rewrite (Nat.mod_small (n2 / 64) 4) by (apply div_bound; lia).
  pose proof (Nat.div_mod_eq n2 64). lia.
Qed.

Lemma arith_one_first n0 : n0 / 4 * 4 + n0 mod 4 * 16 / 16 = n0.
Proof. rewrite Nat.div_mul by lia. pose proof (Nat.div_mod_eq n0 4). lia. Qed.

Lemma arith_two_second n0 n1 : n1 < 256 ->
  (n0 mod 4 * 16 + n1 / 16) mod 16 * 16 + n1 mod 16 * 4 / 4 = n1.
Proof.
  intros H1. rewrite (Nat.add_comm (n0 mod 4 * 16)), Nat.Div0.mod_add, Nat.div_mul by lia.
  rewrite (Nat.mod_small (n1 / 16) 16) by (apply div_bound; lia).
  pose proof (Nat.div_mod_eq n1 16). lia.
Qed.

Lemma to_nat_lt (b : Byte.byte) : Byte.to_nat b < 256.
Proof. pose proof (Byte.to_nat_bounded b). lia. Qed.

Lemma decode_quad_encode (b0 b1 b2 : Byte.byte) :
  decode_quad (encode_sextet (Byte.to_nat b0 / 4))
    (encode_sextet (Byte.to_nat b0 mod 4 * 16 + Byte.to_nat b1 / 16))
    (encode_sextet (Byte.to_nat b1 mod 16 * 4 + Byte.to_nat b2 / 64))
    (encode_sextet (Byte.to_nat b2 mod 64))
  = Some [b0; b1; b2].
Proof.
  pose proof (to_nat_lt b0). pose proof (to_nat_lt b1). pose proof (to_nat_lt b2).
  unfold decode_quad.
  rewrite !sextet_roundtrip by sextet_bounds. cbn [obind].
  rewrite arith_first, arith_second, arith_third by lia.
  rewrite !octet_of_nat. reflexivity.
Qed.

Lemma decode_last_one (b0 : Byte.byte) :
  decode_last (encode_sextet (Byte.to_nat b0 / 4)) (encode_sextet (Byte.to_nat b0 mod 4 * 16))
    pad pad = Some [b0].
Proof.
  pose proof (to_nat_lt b0).
  unfold decode_last. cbn [is_pad pad Byte.eqb].
  rewrite !sextet_roundtrip by sextet_bounds. cbn [obind].
  rewrite Nat.Div0.mod_mul. cbn [Nat.eqb].
  rewrite arith_one_first, octet_of_nat. reflexivity.
Qed.

Lemma decode_last_two (b0 b1 : Byte.byte) :
  decode_last (encode_sextet (Byte.to_nat b0 / 4))
    (encode_sextet (Byte.to_nat b0 mod 4 * 16 + Byte.to_nat b1 / 16))
    (encode_sextet (Byte.to_nat b1 mod 16 * 4)) pad = Some [b0; b1].
Proof.
  pose proof (to_nat_lt b0). pose proof (to_nat_lt b1).
  unfold decode_last. rewrite sextet_not_pad by sextet_bounds. cbn [is_pad pad Byte.eqb].
  rewrite !sextet_roundtrip by sextet_bounds. cbn [obind].
  rewrite Nat.Div0.mod_mul. cbn [Nat.eqb].
  rewrite arith_first, arith_two_second, !octet_of_nat by lia. reflexivity.
Qed.

Lemma encode_bytes_nil (bs : bytes) : encode_bytes bs = [] -> bs = [].
Proof. destruct bs as [|b0 [|b1 [|b2 bs]]]; simpl; congruence. Qed.

Lemma decode_cons4 (c0 c1 c2 c3 : Byte.byte) (r : bytes) :
  r <> [] ->
  decode (c0 :: c1 :: c2 :: c3 :: r)
  = obind (decode_quad c0 c1 c2 c3) (fun q => obind (decode r) (fun r' => Some (q ++ r'))).
Proof. destruct r; [congruence|reflexivity]. Qed.

Lemma decode_encode_bytes (bs : bytes) : decode (encode_bytes bs) = Some bs.
Proof.
  induction bs as [[|b0 [|b1 [|b2 rest]]] IH] using (induction_ltof1 _ (@List.length _));
    unfold ltof in IH.
  - reflexivity.
  - apply decode_last_one.
  - apply decode_last_two.
  - cbn [encode_bytes app].
    destruct (encode_bytes rest) as [|c cs] eqn:E.
    + apply encode_bytes_nil in E. subst rest.
      cbn [decode]. unfold decode_last.
      rewrite !sextet_not_pad by (pose proof (to_nat_lt b0); pose proof (to_nat_lt b1);
                                  pose proof (to_nat_lt b2); sextet_bounds).
      apply decode_quad_encode.
    + rewrite <- E, decode_cons4 by (rewrite E; discriminate).
      rewrite decode_quad_encode. cbn [obind].
      rewrite IH by (simpl; lia). reflexivity.
Qed.

(** a valid sequence is copied unchanged by the lossy conversion *)
Lemma lossy_aux_valid (fuel : nat) (bs : bytes) :
  Utf8.valid_aux fuel bs = true -> Utf8.lossy_aux fuel bs = bs.
Proof.
  revert bs; induction fuel as [|f IH]; intros bs Hv.
  - destruct bs; [reflexivity|discriminate].
  - destruct bs as [|b bs']; [reflexivity|].
    cbn [Utf8.valid_aux] in Hv. cbn [Utf8.lossy_aux].
    destruct (Utf8.scan (b :: bs')) as [w ok].
    apply andb_prop in Hv as [Hok Hrest]. subst ok.
    rewrite (IH _ Hrest). apply firstn_skipn.
Qed.

Lemma from_utf8_lossy_valid (bs : bytes) :
  Utf8.utf8_valid bs = true -> list_byte_of_string (Utf8.from_utf8_lossy bs) = bs.
Proof.
  intro Hv. unfold Utf8.from_utf8_lossy. rewrite lossy_aux_valid by exact Hv.
  apply list_byte_of_string_of_list_byte.
Qed.

Lemma decode_encode (bs : bytes) : decode (list_byte_of_string (encode bs)) = Some bs.
Proof.
  unfold encode. rewrite list_byte_of_string_of_list_byte. apply decode_encode_bytes.
Qed.

(** [str::starts_with] *)
Lemma prefix_spec (p s : string) : String.prefix p s = true <-> exists r, s = (p ++ r)%string.
Proof.
  revert s; induction p as [|a p IH]; intros s.
  - split; [intros _; exists s; reflexivity|intros _; destruct s; reflexivity].
  - destruct s as [|b s]; cbn [String.prefix].
    + split; [discriminate|intros [r Hr]; discriminate].
    + destruct (ascii_dec a b) as [<-|Hab].
      * rewrite IH. split; intros [r Hr]; exists r.
        -- rewrite Hr; reflexivity.
        -- injection Hr as Hr; exact Hr.
      * split; [discriminate|intros [r Hr]; injection Hr as Hr _; congruence].
Qed.

End CodecFacts.

(* ================================================================== *)
(** * Facts about the buffered decoder *)

Module BufferedFacts.
Import Buffered.

Definition body_bytes_of (r : AlbTargetGroupResponse) : bytes :=
  match body r with Some b => list_byte_of_string b | None => [] end.

(** the two status conversions together accept exactly 100..=999 *)
Lemma response_of_alb_in_range (r : AlbTargetGroupResponse) :
  (100 <= status_code r < 1000)%Z ->
  response_of_alb r
  = if is_base64_encoded r then
      match Base64.decode (body_bytes_of r) with
      | Some d => mk_response (Z.to_nat (status_code r)) (headers r) (Full d)
      | None => internal_error
      end
    else mk_response (Z.to_nat (status_code r)) (headers r) (Full (body_bytes_of r)).
Proof.
  intro Hs. unfold response_of_alb, body_bytes_of. cbv zeta.
  replace ((0 <=? status_code r) && (status_code r <=? 65535))%Z with true
    by (symmetry; apply andb_true_intro; split; apply Z.leb_le; lia).
  replace ((100 <=? Z.to_nat (status_code r)) && (Z.to_nat (status_code r) <? 1000))
    with true by (symmetry; apply andb_true_intro; split;
                  [apply Nat.leb_le|apply Nat.ltb_lt]; lia).
  reflexivity.
Qed.

Lemma response_of_alb_out_of_range (r : AlbTargetGroupResponse) :
  ~ (100 <= status_code r < 1000)%Z -> response_of_alb r = internal_error.
Proof.
  intro Hs. unfold response_of_alb. cbv zeta.
  destruct ((0 <=? status_code r) && (status_code r <=? 65535))%Z eqn:E1;
    cbn [negb]; [|reflexivity].
  destruct ((100 <=? Z.to_nat (status_code r)) && (Z.to_nat (status_code r) <? 1000))
    eqn:E2; cbn [negb]; [|reflexivity].
  exfalso. apply andb_prop in E1 as [E1 E1']. apply andb_prop in E2 as [E2 E2'].
  apply Z.leb_le in E1, E1'. apply Nat.leb_le in E2. apply Nat.ltb_lt in E2'. lia.
Qed.

Ltac obind_cases H :=
  repeat match type of H with
  | context [Base64.obind ?o _] =>
      let E := fresh "E" in
      destruct o eqn:E; cbn [Base64.obind] in H; [|discriminate H]
  end.

(** the fields of a decoded reply come from the defaulted JSON fields *)
Lemma alb_of_json_fields (hm : json -> option header_map) (fs : list (string * json))
    (r : AlbTargetGroupResponse) :
  alb_of_json hm (JObject fs) = Some r ->
  default_field "headers" fs [] hm = Some (headers r) /\
  default_field "isBase64Encoded" fs false nullish_boolean = Some (is_base64_encoded r).
Proof.
  intro H. unfold alb_of_json in H.
  destruct (existsb _ known_fields); [discriminate H|].
  obind_cases H. injection H as <-. cbn [headers is_base64_encoded].
  split; first [reflexivity | assumption].
Qed.

End BufferedFacts.

(* ================================================================== *)
(** * Claims about the streaming decoder *)

Import Streaming StreamingFacts.

(** C1. When eight consecutive NULs are first found in the accumulation
    buffer ending at offset [i], [try_parse_metadata] parses exactly
    [buffer[0 .. i-7)] (through [from_utf8_lossy] and [serde_json]) and
    falls back to the default prelude (200, no headers, no cookies) when
    that is not a prelude; [buffer[i+1 ..]] is what is left, and it is the
    first payload the decoder relays. *)
Theorem try_parse_metadata_first_delimiter
    (from_str : string -> option MetadataPrelude) (buffer : bytes) (i : nat)
    (rest : list recv) :
  7 <= i ->
  firstn 8 (skipn (i - 7) buffer) = repeat Byte.x00 8 ->
  has_nul_run8 (firstn i buffer) = false ->
  let prelude :=
    match from_str (Utf8.from_utf8_lossy (firstn (i - 7) buffer)) with
    | Some p => p
    | None => mk_prelude 200 [] []
    end in
  try_parse_metadata from_str buffer = Some (prelude, skipn (i + 1) buffer) /\
  (hd_error buffer = Some Byte.x7b ->
   decode_stream from_str (RecvOk (PayloadChunk (Some buffer)) :: rest)
   = Some (Some prelude, first_items (skipn (i + 1) buffer) ++ relay rest)).
Proof.
  intros Hi H8 Hfirst prelude.
  assert (Hlen : i + 1 <= List.length buffer).
  { pose proof (f_equal (@List.length _) H8) as HL.
    rewrite length_firstn, repeat_length, length_skipn in HL. lia. }
  assert (Hbuf : buffer = firstn (i - 7) buffer ++ nuls 8 ++ skipn (i + 1) buffer).
  { rewrite <- (firstn_skipn (i - 7) buffer) at 1. f_equal.
    rewrite <- (firstn_skipn 8 (skipn (i - 7) buffer)), H8, skipn_skipn.
    unfold nuls, nul. do 2 f_equal. lia. }
  assert (Hno : has_nul_run8 (firstn (i - 7) buffer ++ nuls 7) = false).
  { rewrite <- Hfirst. rewrite Hbuf at 2.
    rewrite firstn_app, length_firstn.
    replace (i - Nat.min (i - 7) (List.length buffer)) with 7 by lia.
    rewrite firstn_firstn, Nat.min_r by lia. reflexivity. }
  assert (Hparse : try_parse_metadata from_str buffer = Some (prelude, skipn (i + 1) buffer)).
  { transitivity (try_parse_metadata from_str
                    (firstn (i - 7) buffer ++ nuls 8 ++ skipn (i + 1) buffer)).
    - rewrite <- Hbuf; reflexivity.
    - rewrite try_parse_first_run by exact Hno. reflexivity. }
  split; [exact Hparse|].
  intro Hhd. unfold decode_stream. cbn [collect]. rewrite app_nil_l.
  destruct buffer as [|b buffer']; [discriminate|].
  injection Hhd as ->. cbn [detect_metadata negb]. simpl Byte.eqb. cbn [negb].
  rewrite Hparse. reflexivity.
Qed.

(** C2. A delimiter split across two chunks, the data before it (the
    prelude text and the first [k] of the eight NULs) delivered over any
    number of earlier chunks, the first of which starts with [{], is
    detected: the decoder recognises the prelude and produces the same
    result as when the two chunks around the split arrive as one. *)
Theorem split_delimiter_detected
    (from_str : string -> option MetadataPrelude) (earlier : list bytes)
    (chunk1 pre post : bytes) (k : nat) (rest : list recv) :
  0 < k < 8 ->
  hd_error (hd [] (earlier ++ [chunk1])) = Some Byte.x7b ->
  List.concat earlier ++ chunk1 = pre ++ repeat Byte.x00 k ->
  has_nul_run8 (pre ++ repeat Byte.x00 7) = false ->
  let chunk2 := repeat Byte.x00 (8 - k) ++ post in
  let deliver := map (fun c => RecvOk (PayloadChunk (Some c))) in
  decode_stream from_str (deliver (earlier ++ [chunk1; chunk2]) ++ rest)
  = decode_stream from_str (deliver (earlier ++ [chunk1 ++ chunk2]) ++ rest) /\
  decode_stream from_str (deliver (earlier ++ [chunk1 ++ chunk2]) ++ rest)
  = Some (Some (parse_prelude from_str pre), first_items post ++ relay rest).
Proof.
  intros Hk Hhd Hcat Hno chunk2 deliver.
  assert (Hfull : List.concat earlier ++ chunk1 ++ chunk2 = pre ++ nuls 8 ++ post).
  { unfold chunk2. rewrite app_assoc, Hcat, <- app_assoc, (app_assoc (repeat _ k)).
    change (repeat Byte.x00) with (repeat nul). rewrite <- repeat_app.
    replace (k + (8 - k)) with 8 by lia. reflexivity. }
  assert (Hnok : has_nul_run8 (List.concat earlier ++ chunk1) = false).
  { rewrite Hcat. apply (no_run_prefix _ (nuls (7 - k))).
    rewrite <- app_assoc. change (repeat Byte.x00 k) with (nuls k).
    rewrite <- nuls_add. replace (k + (7 - k)) with 7 by lia. exact Hno. }
  assert (Hstart : hd_error (List.concat earlier ++ chunk1) = Some Byte.x7b).
  { destruct earlier as [|e es]; [exact Hhd|].
    cbn [hd app] in Hhd. cbn [List.concat]. rewrite <- app_assoc.
    destruct e; [discriminate|exact Hhd]. }
  assert (Hd : detect_metadata (List.concat earlier ++ chunk1 ++ chunk2) = true).
  { rewrite app_assoc. destruct (List.concat earlier ++ chunk1) as [|b l];
      [discriminate|]. injection Hstart as ->. reflexivity. }
  assert (Hsplit : collect from_str [] (deliver (earlier ++ [chunk1; chunk2]) ++ rest)
                   = Some (Some (parse_prelude from_str pre), post, rest)).
  { replace (deliver (earlier ++ [chunk1; chunk2]) ++ rest)
      with (map (fun c => RecvOk (PayloadChunk (Some c))) (earlier ++ [chunk1])
            ++ RecvOk (PayloadChunk (Some chunk2)) :: rest)
      by (unfold deliver; rewrite !map_app, <- !app_assoc; reflexivity).
    rewrite collect_run_free_start.
    - rewrite concat_app. cbn [List.concat]. rewrite app_nil_r.
      apply collect_completing_chunk; [rewrite <- app_assoc; exact Hd|
        rewrite <- app_assoc; exact Hfull|exact Hno].
    - exact Hhd.
    - rewrite concat_app. cbn [List.concat]. rewrite app_nil_r. exact Hnok. }
  assert (Hmerged : collect from_str [] (deliver (earlier ++ [chunk1 ++ chunk2]) ++ rest)
                    = Some (Some (parse_prelude from_str pre), post, rest)).
  { unfold deliver. rewrite map_app, <- app_assoc.
    assert (Hpre : forall more,
              collect from_str [] (map (fun c => RecvOk (PayloadChunk (Some c))) earlier ++ more)
              = collect from_str (List.concat earlier) more).
    { intro more. destruct earlier as [|e es]; [reflexivity|].
      apply collect_run_free_start; [exact Hhd|].
      apply (no_run_prefix _ chunk1). exact Hnok. }
    rewrite Hpre. apply collect_completing_chunk; [exact Hd|exact Hfull|exact Hno]. }
  unfold decode_stream. rewrite Hsplit, Hmerged. split; reflexivity.
Qed.

(** C3. A stream whose first byte is not [{] carries no prelude: the
    response is 200 with [content-type: application/octet-stream] and its
    body is the whole stream from byte zero. *)
Theorem no_prelude_whole_stream
    (from_str : string -> option MetadataPrelude) (cs : list (option bytes))
    (b : Byte.byte) (bs : bytes) :
  all_bytes cs = b :: bs ->
  b <> Byte.x7b ->
  exists items,
    handle_streaming_response from_str (chunks_stream cs)
    = mk_response 200 [("content-type", "application/octet-stream")]%string (Streamed items)
    /\ body_bytes items = all_bytes cs.
Proof.
  intros Hall Hb.
  assert (Hnone : exists rem rest, collect from_str [] (chunks_stream cs) = Some (None, rem, rest)).
  { destruct cs as [|[d|] cs]; [discriminate| |simpl; eauto].
    rewrite chunks_stream_cons. cbn [collect]. rewrite app_nil_l.
    destruct d as [|x d].
    - simpl; eauto.
    - rewrite all_bytes_cons in Hall. injection Hall as -> _.
      cbn [detect_metadata]. destruct (Byte.eqb b lbrace) eqn:E.
      + apply Byte.byte_dec_bl in E. contradiction.
      + simpl; eauto. }
  destruct Hnone as (rem & rest & Hc).
  pose proof (collect_chunks from_str cs []) as Hb2. rewrite Hc in Hb2.
  exists (first_items rem ++ relay rest). split.
  - unfold handle_streaming_response, decode_stream. rewrite Hc. reflexivity.
  - rewrite body_bytes_app, body_bytes_first_items. exact Hb2.
Qed.

(** C8. At most one prelude is recognised per stream, only from bytes that
    precede the relayed payload, and no search happens in the payload:
    with a prelude, the stream is the prelude bytes, the first eight-NUL
    delimiter, then exactly the body; without one, the body is the whole
    stream. *)
Theorem at_most_one_prelude
    (from_str : string -> option MetadataPrelude) (cs : list (option bytes)) :
  match decode_stream from_str (chunks_stream cs) with
  | Some (Some p, items) =>
      exists pre, all_bytes cs = pre ++ repeat Byte.x00 8 ++ body_bytes items
                  /\ has_nul_run8 (pre ++ repeat Byte.x00 7) = false
                  /\ p = parse_prelude from_str pre
  | Some (None, items) => body_bytes items = all_bytes cs
  | None => False
  end.
Proof.
  pose proof (collect_chunks from_str cs []) as H. unfold decode_stream.
  destruct (collect from_str [] (chunks_stream cs)) as [[[[p|] rem] rest]|];
    [|rewrite body_bytes_app, body_bytes_first_items; exact H|exact H].
  destruct H as (pre & Hall & Hno & Hp). exists pre.
  rewrite body_bytes_app, body_bytes_first_items. auto.
Qed.

(** Witness of C1 on [{], the delimiter, [A]. *)
Lemma try_parse_metadata_first_delimiter_witness :
  7 <= 8 /\
  firstn 8 (skipn (8 - 7) Samples.prelude_then_a) = repeat Byte.x00 8 /\
  has_nul_run8 (firstn 8 Samples.prelude_then_a) = false /\
  try_parse_metadata (fun _ => None) Samples.prelude_then_a
  = Some (mk_prelude 200 [] [], [Byte.x41]).
Proof.
  split; [lia|]. split; [reflexivity|]. split; [reflexivity|].
  pose proof (try_parse_metadata_first_delimiter (fun _ => None) Samples.prelude_then_a 8 []
                ltac:(lia) eq_refl eq_refl) as H.
  cbv zeta in H. destruct H as [H _]. exact H.
Defined.

(** Witness of C2: [{], then [A] and three NULs, then five NULs and [B]. *)
Lemma split_delimiter_detected_witness :
  0 < 3 < 8 /\
  hd_error (hd [] ([[Byte.x7b]] ++ [[Byte.x41; Byte.x00; Byte.x00; Byte.x00]]))
  = Some Byte.x7b /\
  List.concat [[Byte.x7b]] ++ [Byte.x41; Byte.x00; Byte.x00; Byte.x00]
  = [Byte.x7b; Byte.x41] ++ repeat Byte.x00 3 /\
  has_nul_run8 ([Byte.x7b; Byte.x41] ++ repeat Byte.x00 7) = false /\
  decode_stream (fun _ => None)
    [RecvOk (PayloadChunk (Some [Byte.x7b]));
     RecvOk (PayloadChunk (Some [Byte.x41; Byte.x00; Byte.x00; Byte.x00]));
     RecvOk (PayloadChunk (Some (repeat Byte.x00 5 ++ [Byte.x42])));
     RecvOk InvokeComplete]
  = Some (Some (mk_prelude 200 [] []), [BodyOk [Byte.x42]]).
Proof.
  split; [lia|]. split; [reflexivity|]. split; [reflexivity|]. split; [reflexivity|].
  pose proof (split_delimiter_detected (fun _ => None) [[Byte.x7b]]
                [Byte.x41; Byte.x00; Byte.x00; Byte.x00] [Byte.x7b; Byte.x41] [Byte.x42] 3
                [RecvOk InvokeComplete] ltac:(lia) eq_refl eq_refl eq_refl) as H.
  cbv zeta in H. destruct H as [H1 H2]. exact (eq_trans H1 H2).
Defined.

(** Witness of C3 on the stream [Hello] sent as [Hel] and [lo]. *)
Lemma no_prelude_whole_stream_witness :
  all_bytes [Some [Byte.x48; Byte.x65; Byte.x6c]; Some [Byte.x6c; Byte.x6f]]
  = Byte.x48 :: [Byte.x65; Byte.x6c; Byte.x6c; Byte.x6f] /\
  Byte.x48 <> Byte.x7b /\
  exists items,
    handle_streaming_response (fun _ => None)
      (chunks_stream [Some [Byte.x48; Byte.x65; Byte.x6c]; Some [Byte.x6c; Byte.x6f]])
    = mk_response 200 [("content-type", "application/octet-stream")]%string (Streamed items)
    /\ body_bytes items = [Byte.x48; Byte.x65; Byte.x6c; Byte.x6c; Byte.x6f].
Proof.
  split; [reflexivity|]. split; [discriminate|].
  exact (no_prelude_whole_stream (fun _ => None)
           [Some [Byte.x48; Byte.x65; Byte.x6c]; Some [Byte.x6c; Byte.x6f]]
           Byte.x48 [Byte.x65; Byte.x6c; Byte.x6c; Byte.x6f] eq_refl ltac:(discriminate)).
Defined.

(** C7, at the failing input: an empty first chunk (or one with no
    payload) ends prelude detection, so a well-formed prelude that follows
    is relayed as body bytes, while the same stream without that chunk is
    decoded with its prelude. *)
Theorem empty_first_chunk_skips_prelude :
  decode_stream (fun _ => None) (chunks_stream [Some []; Some Samples.prelude_then_a])
  = Some (None, [BodyOk Samples.prelude_then_a]) /\
  decode_stream (fun _ => None) (chunks_stream [None; Some Samples.prelude_then_a])
  = Some (None, [BodyOk Samples.prelude_then_a]) /\
  decode_stream (fun _ => None) (chunks_stream [Some Samples.prelude_then_a])
  = Some (Some (mk_prelude 200 [] []), [BodyOk [Byte.x41]]).
Proof. split; [|split]; reflexivity. Qed.

(** C4, refuted: a recognised prelude whose cookie is not a valid header
    value (here it holds a line feed) does not set the response head:
    [builder.body] fails and [handle_err!] answers 500 instead of 201. *)
Theorem prelude_bad_cookie_internal_error :
  decode_stream (fun _ => Some Samples.bad_cookie_prelude)
    (chunks_stream [Some ([Byte.x7b] ++ repeat Byte.x00 8)])
  = Some (Some Samples.bad_cookie_prelude, []) /\
  status_code Samples.bad_cookie_prelude = 201 /\
  handle_streaming_response (fun _ => Some Samples.bad_cookie_prelude)
    (chunks_stream [Some ([Byte.x7b] ++ repeat Byte.x00 8)])
  = mk_response 500 [] (Full []).
Proof. split; [|split]; reflexivity. Qed.

(** C4, as the code does it: for a recognised prelude whose cookies are
    all valid header values, the response has the prelude's status and
    headers, no [content-length], and one [set-cookie] per cookie appended
    in order after any the prelude had; if some cookie is not a valid
    header value the response is 500 with an empty body. *)
Theorem prelude_response_head
    (from_str : string -> option MetadataPrelude) (evs : list recv)
    (p : MetadataPrelude) (items : list body_item) :
  decode_stream from_str evs = Some (Some p, items) ->
  (forallb valid_header_value (cookies p) = true ->
   exists hs,
     handle_streaming_response from_str evs = mk_response (status_code p) hs (Streamed items)
     /\ get_all "content-length" hs = []
     /\ forall k, k <> "content-length"%string ->
        get_all k hs = get_all k (headers p)
                       ++ (if String.eqb k "set-cookie" then cookies p else [])) /\
  (forallb valid_header_value (cookies p) = false ->
   handle_streaming_response from_str evs = mk_response 500 [] (Full [])).
Proof.
  intro Hd. unfold handle_streaming_response. rewrite Hd. cbn [create_response_builder].
  split; intro Hv.
  - rewrite fold_cookies_valid by exact Hv.
    eexists; split; [reflexivity|]. split.
    + rewrite get_all_app, get_all_remove, String.eqb_refl, get_all_cookies. reflexivity.
    + intros k Hk. rewrite get_all_app, get_all_remove, get_all_cookies.
      destruct (String.eqb k "content-length") eqn:E; [apply String.eqb_eq in E; contradiction|].
      reflexivity.
  - rewrite fold_cookies_invalid by exact Hv. reflexivity.
Qed.

(** Witness of C4 on the scenario of the spec: the prelude, the delimiter,
    then [oops]. *)
Lemma prelude_response_head_witness :
  decode_stream (fun _ => Some Samples.scenario_prelude)
    (chunks_stream [Some ([Byte.x7b] ++ repeat Byte.x00 8 ++ Samples.oops)])
  = Some (Some Samples.scenario_prelude, [BodyOk Samples.oops]) /\
  forallb valid_header_value (cookies Samples.scenario_prelude) = true /\
  exists hs,
    handle_streaming_response (fun _ => Some Samples.scenario_prelude)
      (chunks_stream [Some ([Byte.x7b] ++ repeat Byte.x00 8 ++ Samples.oops)])
    = mk_response 500 hs (Streamed [BodyOk Samples.oops])
    /\ get_all "content-length" hs = [].
Proof.
  split; [reflexivity|]. split; [reflexivity|].
  destruct (prelude_response_head (fun _ => Some Samples.scenario_prelude)
              (chunks_stream [Some ([Byte.x7b] ++ repeat Byte.x00 8 ++ Samples.oops)])
              Samples.scenario_prelude [BodyOk Samples.oops] eq_refl) as [H _].
  destruct (H eq_refl) as (hs & Hr & Hcl & _).
  exists hs. split; [exact Hr|exact Hcl].
Defined.

(* ================================================================== *)
(** * Claims about the request path and the buffered decoder *)

Import CodecFacts BufferedFacts.

(** C5, refuted: a request that fails the API-key check still has its
    content type classified and its body encoded before the 401 is
    returned; only the payload and the invocation are skipped. *)
Theorem unauthorized_after_body_transform :
  Gateway.handler (fun _ _ _ => internal_error)
    (Gateway.mk_target "f" (Some (Gateway.ApiKeys ["k"%string])) Gateway.Buffered)
    (Gateway.mk_request "POST" "/" [] [] [Byte.x41]) []
  = (mk_response 401 [] (Full []),
     [Gateway.OpClassify; Gateway.OpTransformBody; Gateway.OpAuthorize]).
Proof. reflexivity. Qed.

(** C5, as the code does it: when the target requires API keys and the
    request's key is not among them, the response is 401 with an empty
    body, and the operations performed are exactly the classification,
    the body encoding and the check: no payload is built and the backend
    is never invoked. *)
Theorem unauthorized_no_invoke
    (backend : Gateway.LambdaInvokeMode -> string -> Gateway.AlbRequestBody -> response)
    (target : Gateway.Target) (req : Gateway.Request) (keys : list string)
    (log : list Gateway.op) :
  Gateway.auth target = Some (Gateway.ApiKeys keys) ->
  Gateway.key_accepted keys (Gateway.req_headers req) = false ->
  Gateway.handler backend target req log
  = (mk_response 401 [] (Full []),
     log ++ [Gateway.OpClassify; Gateway.OpTransformBody; Gateway.OpAuthorize]).
Proof.
  intros Ha Hk. unfold Gateway.handler, Gateway.bind, Gateway.perform, Gateway.ret.
  rewrite Ha. cbv beta iota. rewrite Hk. cbn [negb].
  rewrite <- !app_assoc. reflexivity.
Qed.

(** Witness of C5 on a request whose [x-api-key] is [bad]. *)
Lemma unauthorized_no_invoke_witness :
  Gateway.auth (Gateway.mk_target "f" (Some (Gateway.ApiKeys ["k"%string])) Gateway.Buffered)
  = Some (Gateway.ApiKeys ["k"%string]) /\
  Gateway.key_accepted ["k"%string] [("x-api-key", "bad")]%string = false /\
  Gateway.handler (fun _ _ _ => internal_error)
    (Gateway.mk_target "f" (Some (Gateway.ApiKeys ["k"%string])) Gateway.Buffered)
    (Gateway.mk_request "POST" "/" [] [("x-api-key", "bad")]%string [Byte.x41]) []
  = (mk_response 401 [] (Full []),
     [Gateway.OpClassify; Gateway.OpTransformBody; Gateway.OpAuthorize]).
Proof.
  split; [reflexivity|]. split; [reflexivity|].
  exact (unauthorized_no_invoke (fun _ _ _ => internal_error)
           (Gateway.mk_target "f" (Some (Gateway.ApiKeys ["k"%string])) Gateway.Buffered)
           (Gateway.mk_request "POST" "/" [] [("x-api-key", "bad")]%string [Byte.x41])
           ["k"%string] [] eq_refl eq_refl).
Defined.

(** C9, refuted: a content type that starts with [text/] but is not
    visible ASCII ([to_str] fails on it) is read as the empty string, so
    the classifier answers must-encode. *)
Theorem text_non_ascii_must_encode :
  String.prefix "text/" Samples.text_e_acute = true /\
  Utils.whether_should_base64_encode [("content-type"%string, Samples.text_e_acute)] = true.
Proof. split; reflexivity. Qed.

(** C9, as the code does it: the classifier answers not-encoded exactly
    when the first [content-type] value is visible ASCII and is
    [application/json], [application/xml], [application/javascript] or
    starts with [text/]; an absent, empty or non-ASCII value answers
    must-encode. *)
Theorem whether_should_base64_encode_spec (headers : header_map) :
  Utils.whether_should_base64_encode headers = false <->
  exists v, get "content-type" headers = Some v /\
    forallb visible_ascii (list_byte_of_string v) = true /\
    (v = "application/json"%string \/ v = "application/xml"%string \/
     v = "application/javascript"%string \/ exists r, v = ("text/" ++ r)%string).
Proof.
  unfold Utils.whether_should_base64_encode, Utils.content_type_of.
  destruct (get "content-type" headers) as [v|] eqn:Hg.
  2: { split; [discriminate|intros (v & Hv & _); discriminate Hv]. }
  unfold to_str. destruct (forallb visible_ascii (list_byte_of_string v)) eqn:Ha.
  2: { split; [discriminate|].
       intros (v' & Hv' & Ha' & _). injection Hv' as <-. congruence. }
  split.
  - intro H. exists v. split; [reflexivity|]. split; [exact Ha|].
    destruct (String.eqb_spec v "application/json") as [E|E]; [left; exact E|].
    destruct (String.eqb_spec v "application/xml") as [E'|E']; [right; left; exact E'|].
    destruct (String.eqb_spec v "application/javascript") as [E''|E''];
      [right; right; left; exact E''|].
    right; right; right. apply prefix_spec.
    destruct (String.prefix "text/" v); [reflexivity|discriminate H].
  - intros (v' & Hv' & _ & Hc). injection Hv' as <-.
    destruct Hc as [->|[->|[->|[r ->]]]]; try reflexivity.
    rewrite (proj2 (prefix_spec "text/" ("text/" ++ r)) (ex_intro _ r eq_refl)).
    reflexivity.
Qed.

(** C6, refuted: a reply whose status is 600, outside 100..599, is not a
    decode failure: [StatusCode::from_u16] accepts every value in
    100..=999, so the gateway answers 600. *)
Theorem buffered_status_600_accepted :
  Buffered.handle_buffered_json (fun _ => None)
    (Some (Buffered.JObject [("statusCode"%string, Buffered.JNumber 600)]))
  = mk_response 600 [] (Full []).
Proof. reflexivity. Qed.

(** C6, as the code does it: a payload that is not JSON gives 500 with an
    empty body; for a decoded reply, an absent [headers] field gives no
    headers and an absent [isBase64Encoded] field gives not encoded; a
    status outside 100..999 gives 500; otherwise the response carries the
    status and headers, and the body is base64-decoded exactly when the
    flag is set, invalid base64 giving 500. *)
Theorem buffered_reply_decoding (hm : Buffered.json -> option header_map)
    (fs : list (string * Buffered.json)) (r : Buffered.AlbTargetGroupResponse) :
  Buffered.alb_of_json hm (Buffered.JObject fs) = Some r ->
  Buffered.handle_buffered_json hm None = mk_response 500 [] (Full []) /\
  (Buffered.field "headers" fs = None -> Buffered.headers r = []) /\
  (Buffered.field "isBase64Encoded" fs = None -> Buffered.is_base64_encoded r = false) /\
  (~ (100 <= Buffered.status_code r < 1000)%Z ->
   Buffered.handle_buffered_json hm (Some (Buffered.JObject fs))
   = mk_response 500 [] (Full [])) /\
  ((100 <= Buffered.status_code r < 1000)%Z ->
   Buffered.handle_buffered_json hm (Some (Buffered.JObject fs))
   = if Buffered.is_base64_encoded r then
       match Base64.decode (body_bytes_of r) with
       | Some d =>
           mk_response (Z.to_nat (Buffered.status_code r)) (Buffered.headers r) (Full d)
       | None => mk_response 500 [] (Full [])
       end
     else
       mk_response (Z.to_nat (Buffered.status_code r)) (Buffered.headers r)
         (Full (body_bytes_of r))).
Proof.
  intro Ha. destruct (alb_of_json_fields hm fs r Ha) as [Hh He].
  unfold Buffered.handle_buffered_json. rewrite Ha.
  split; [reflexivity|]. split; [|split; [|split]].
  - intro Hf. unfold Buffered.default_field in Hh. rewrite Hf in Hh.
    injection Hh as Hh. symmetry; exact Hh.
  - intro Hf. unfold Buffered.default_field in He. rewrite Hf in He.
    injection He as He. symmetry; exact He.
  - apply response_of_alb_out_of_range.
  - apply response_of_alb_in_range.
Qed.

(** Witness of C6 on [{statusCode: 200, body: SGk=, isBase64Encoded: true}]. *)
Lemma buffered_reply_decoding_witness :
  Buffered.alb_of_json (fun _ => None)
    (Buffered.JObject [("statusCode"%string, Buffered.JNumber 200);
                       ("body"%string, Buffered.JString "SGk=");
                       ("isBase64Encoded"%string, Buffered.JBool true)])
  = Some (Buffered.mk_alb 200 None [] [] (Some "SGk="%string) true) /\
  Buffered.handle_buffered_json (fun _ => None)
    (Some (Buffered.JObject [("statusCode"%string, Buffered.JNumber 200);
                             ("body"%string, Buffered.JString "SGk=");
                             ("isBase64Encoded"%string, Buffered.JBool true)]))
  = mk_response 200 [] (Full [Byte.x48; Byte.x69]).
Proof.
  split; [reflexivity|].
  destruct (buffered_reply_decoding (fun _ => None)
              [("statusCode"%string, Buffered.JNumber 200);
               ("body"%string, Buffered.JString "SGk=");
               ("isBase64Encoded"%string, Buffered.JBool true)]
              (Buffered.mk_alb 200 None [] [] (Some "SGk="%string) true) eq_refl)
    as (_ & _ & _ & _ & H).
  rewrite H by (cbn; lia). reflexivity.
Defined.

(** C10. A request body translated by the gateway ([transform_body] under
    the classifier's answer) and echoed back unchanged in a buffered reply
    with the same [isBase64Encoded] flag decodes to the original bytes:
    through the base64 path for every body, and through the text path for
    every valid UTF-8 body. *)
Theorem body_round_trip (hm : Buffered.json -> option header_map)
    (req_headers : header_map) (bs : bytes) (status : Z) :
  (100 <= status < 1000)%Z ->
  (Utils.whether_should_base64_encode req_headers = false -> Utf8.utf8_valid bs = true) ->
  let enc := Utils.whether_should_base64_encode req_headers in
  Buffered.handle_buffered_json hm
    (Some (Buffered.JObject
       [("statusCode"%string, Buffered.JNumber status);
        ("isBase64Encoded"%string, Buffered.JBool enc);
        ("body"%string, Buffered.JString (Utils.transform_body enc bs))]))
  = mk_response (Z.to_nat status) [] (Full bs).
Proof.
  intros Hs Hv enc.
  assert (Hi : Buffered.i64_range status = true).
  { unfold Buffered.i64_range. apply andb_true_intro; split;
      [apply Z.leb_le|apply Z.ltb_lt]; lia. }
  assert (Ha : Buffered.alb_of_json hm
                 (Buffered.JObject
                    [("statusCode"%string, Buffered.JNumber status);
                     ("isBase64Encoded"%string, Buffered.JBool enc);
                     ("body"%string, Buffered.JString (Utils.transform_body enc bs))])
               = Some (Buffered.mk_alb status None [] []
                         (Some (Utils.transform_body enc bs)) enc)).
  { unfold Buffered.alb_of_json, Buffered.status_field.
    cbn -[Buffered.i64_range Utils.transform_body]. rewrite Hi. reflexivity. }
  unfold Buffered.handle_buffered_json. rewrite Ha.
  rewrite response_of_alb_in_range by exact Hs.
  cbn [Buffered.is_base64_encoded Buffered.status_code Buffered.headers].
  unfold body_bytes_of. cbn [Buffered.body].
  unfold enc in *. destruct (Utils.whether_should_base64_encode req_headers).
  - unfold Utils.transform_body. rewrite decode_encode. reflexivity.
  - unfold Utils.transform_body. rewrite from_utf8_lossy_valid by (apply Hv; reflexivity).
    reflexivity.
Qed.

(** Witness of C10 on a JSON request carrying [é] and on a binary
    request carrying the byte 0xFF. *)
Lemma body_round_trip_witness :
  Buffered.handle_buffered_json (fun _ => None)
    (Some (Buffered.JObject
       [("statusCode"%string, Buffered.JNumber 200);
        ("isBase64Encoded"%string,
         Buffered.JBool (Utils.whether_should_base64_encode
                           [("content-type", "application/json")]%string));
        ("body"%string,
         Buffered.JString (Utils.transform_body
                             (Utils.whether_should_base64_encode
                                [("content-type", "application/json")]%string)
                             [Byte.xc3; Byte.xa9]))]))
  = mk_response 200 [] (Full [Byte.xc3; Byte.xa9]) /\
  Buffered.handle_buffered_json (fun _ => None)
    (Some (Buffered.JObject
       [("statusCode"%string, Buffered.JNumber 200);
        ("isBase64Encoded"%string, Buffered.JBool (Utils.whether_should_base64_encode []));
        ("body"%string,
         Buffered.JString (Utils.transform_body (Utils.whether_should_base64_encode [])
                             [Byte.xff]))]))
  = mk_response 200 [] (Full [Byte.xff]).
Proof.
  split.
  - exact (body_round_trip (fun _ => None) [("content-type", "application/json")]%string
             [Byte.xc3; Byte.xa9] 200 ltac:(lia) (fun _ => eq_refl)).
  - exact (body_round_trip (fun _ => None) [] [Byte.xff] 200 ltac:(lia)
             (fun H => match Bool.diff_true_false H with end)).
Defined.

(* ================================================================== *)
(** * Further facts about the streaming decoder and the codecs *)

Module MoreFacts.

Lemma relay_items_nonempty (evs : list recv) (d : bytes) :
  In (BodyOk d) (relay evs) -> d <> [].
Proof.
  induction evs as [|[[[data|]| |]|] evs IH]; cbn [relay In]; try tauto.
  - destruct data as [|b data]; [exact IH|].
    intros [H|H]; [injection H as <-; discriminate|exact (IH H)].
  - intros [H|H]; [discriminate|exact (IH H)].
Qed.

Lemma first_items_nonempty (buf d : bytes) :
  In (BodyOk d) (first_items buf) -> d <> [].
Proof.
  destruct buf as [|b buf]; cbn [first_items In]; [tauto|].
  intros [H|[]]. injection H as <-. discriminate.
Qed.

Lemma collect_err (from_str : string -> option MetadataPrelude) (rest : list recv)
    (cs : list bytes) :
  forall buf,
  detect_metadata buf = true ->
  has_nul_run8 (buf ++ List.concat cs) = false ->
  collect from_str buf (map (fun c => RecvOk (PayloadChunk (Some c))) cs ++ RecvErr :: rest)
  = None.
Proof.
  induction cs as [|c cs IH]; intros buf Hd Hno; [reflexivity|].
  cbn [map app collect].
  assert (Hd' : detect_metadata (buf ++ c) = true) by (destruct buf; [discriminate|exact Hd]).
  rewrite Hd'. cbn [negb].
  cbn [List.concat] in Hno. rewrite app_assoc in Hno.
  rewrite try_parse_no_run by exact (no_run_prefix _ _ Hno).
  apply IH; assumption.
Qed.

Lemma encode_bytes_length (bs : bytes) :
  List.length (Base64.encode_bytes bs) = 4 * ((List.length bs + 2) / 3).
Proof.
  induction bs as [[|b0 [|b1 [|b2 rest]]] IH] using (induction_ltof1 _ (@List.length _));
    unfold ltof in IH; try reflexivity.
  cbn [Base64.encode_bytes]. rewrite length_app, IH by (simpl; lia).
  cbn [List.length].
  replace (S (S (S (List.length rest))) + 2) with (List.length rest + 2 + 1 * 3) by lia.
  rewrite Nat.div_add by lia. lia.
Qed.

Lemma decode_length (cs : bytes) :
  List.length cs mod 4 <> 0 -> Base64.decode cs = None.
Proof.
  induction cs as [[|c0 [|c1 [|c2 [|c3 rest]]]] IH] using (induction_ltof1 _ (@List.length _));
    unfold ltof in IH; intro Hl; try reflexivity.
  - cbn in Hl. contradiction.
  - destruct rest as [|r rest'].
    + cbn in Hl. contradiction.
    + rewrite CodecFacts.decode_cons4 by discriminate.
      rewrite (IH (r :: rest')).
      * destruct (Base64.decode_quad c0 c1 c2 c3); reflexivity.
      * simpl; lia.
      * replace (List.length (c0 :: c1 :: c2 :: c3 :: r :: rest'))
          with (List.length (r :: rest') + 1 * 4) in Hl by (simpl; lia).
        rewrite Nat.Div0.mod_add in Hl. exact Hl.
Qed.

End MoreFacts.

(* ================================================================== *)
(** * Further properties of the streaming decoder ([src/streaming.rs]) *)

Import MoreFacts.

(** A stream carrying no run of eight NUL bytes (in any chunk or across
    chunks) has no prelude: the response is 200 with
    [content-type: application/octet-stream], and the body delivers every
    byte of the stream, in order, even when the stream starts with [{]. *)
Theorem stream_without_delimiter_relayed_whole
    (from_str : string -> option MetadataPrelude) (cs : list (option bytes)) :
  has_nul_run8 (all_bytes cs) = false ->
  exists items,
    handle_streaming_response from_str (chunks_stream cs)
    = mk_response 200 [("content-type", "application/octet-stream")]%string (Streamed items)
    /\ body_bytes items = all_bytes cs.
Proof.
  intro Hno. pose proof (collect_chunks from_str cs []) as H.
  unfold handle_streaming_response, decode_stream.
  destruct (collect from_str [] (chunks_stream cs)) as [[[[p|] rem] rest]|].
  - destruct H as (pre & Hall & _). cbn [app] in Hall.
    rewrite Hall, (has_nul_run8_suffix pre _ (has_nul_run8_nuls8 _)) in Hno. discriminate.
  - exists (first_items rem ++ relay rest). split; [reflexivity|].
    rewrite body_bytes_app, body_bytes_first_items. exact H.
  - contradiction.
Qed.

Lemma stream_without_delimiter_relayed_whole_witness :
  has_nul_run8 (all_bytes [Some [Byte.x7b; Byte.x00]; Some [Byte.x00; Byte.x41]]) = false /\
  exists items,
    handle_streaming_response (fun _ => None)
      (chunks_stream [Some [Byte.x7b; Byte.x00]; Some [Byte.x00; Byte.x41]])
    = mk_response 200 [("content-type", "application/octet-stream")]%string (Streamed items)
    /\ body_bytes items = [Byte.x7b; Byte.x00; Byte.x00; Byte.x41].
Proof.
  split; [reflexivity|].
  exact (stream_without_delimiter_relayed_whole (fun _ => None)
           [Some [Byte.x7b; Byte.x00]; Some [Byte.x00; Byte.x41]] eq_refl).
Defined.

(** The streamed body never carries an empty data item: the leftover
    buffer is sent only when not empty, and the relay skips empty and
    absent chunks. *)
Theorem streamed_items_nonempty (from_str : string -> option MetadataPrelude)
    (evs : list recv) (items : list body_item) :
  resp_body (handle_streaming_response from_str evs) = Streamed items ->
  forall d, In (BodyOk d) items -> d <> [].
Proof.
  unfold handle_streaming_response, decode_stream.
  destruct (collect from_str [] evs) as [[[m rem] rest]|]; [|discriminate].
  destruct (create_response_builder m) as [[s h]|]; cbn; [|discriminate].
  intros H d Hd. injection H as <-. apply in_app_or in Hd as [Hd|Hd].
  - exact (first_items_nonempty _ _ Hd).
  - exact (relay_items_nonempty _ _ Hd).
Qed.

Lemma streamed_items_nonempty_witness :
  resp_body (handle_streaming_response (fun _ => None)
               (chunks_stream [Some [Byte.x41]; Some []; None; Some [Byte.x42]]))
  = Streamed [BodyOk [Byte.x41]; BodyOk [Byte.x42]] /\
  forall d, In (BodyOk d) [BodyOk [Byte.x41]; BodyOk [Byte.x42]] -> d <> [].
Proof.
  split; [reflexivity|].
  exact (streamed_items_nonempty (fun _ => None)
           (chunks_stream [Some [Byte.x41]; Some []; None; Some [Byte.x42]])
           [BodyOk [Byte.x41]; BodyOk [Byte.x42]] eq_refl).
Defined.

(** The spawned relay loop ends at the first [InvokeComplete]: nothing
    received after it reaches the body. *)
Theorem relay_stops_at_completion (a b : list recv) :
  relay (a ++ RecvOk InvokeComplete :: b) = relay (a ++ [RecvOk InvokeComplete]).
Proof.
  induction a as [|[[[data|]| |]|] a IH]; cbn [app relay]; try reflexivity;
    rewrite ?IH; reflexivity.
Qed.

(** [try_parse_metadata] finds no prelude exactly when the buffer holds no
    run of eight consecutive NUL bytes. *)
Theorem try_parse_metadata_none_iff (from_str : string -> option MetadataPrelude)
    (buffer : bytes) :
  try_parse_metadata from_str buffer = None <-> has_nul_run8 buffer = false.
Proof.
  split; [|apply try_parse_no_run].
  intro H. destruct (has_nul_run8 buffer) eqn:E; [|reflexivity].
  destruct (first_nul_run8 buffer E) as (pre & post & -> & Hno).
  rewrite try_parse_first_run in H by exact Hno. discriminate.
Qed.

(** A receive error while the decoder is still collecting a prelude (the
    stream started with [{] and no run of eight NULs has come yet) ends
    the request with the 500 response and an empty body. *)
Theorem recv_error_during_prelude_internal_error
    (from_str : string -> option MetadataPrelude) (c0 : bytes) (cs : list bytes)
    (rest : list recv) :
  has_nul_run8 (List.concat ((Byte.x7b :: c0) :: cs)) = false ->
  handle_streaming_response from_str
    (map (fun c => RecvOk (PayloadChunk (Some c))) ((Byte.x7b :: c0) :: cs) ++ RecvErr :: rest)
  = mk_response 500 [] (Full []).
Proof.
  intro Hno. unfold handle_streaming_response, decode_stream.
  cbn [map app collect]. cbn [List.concat] in Hno.
  change ([] ++ Byte.x7b :: c0) with (Byte.x7b :: c0).
  change (detect_metadata (Byte.x7b :: c0)) with true. cbn [negb].
  rewrite try_parse_no_run by exact (no_run_prefix _ _ Hno).
  rewrite collect_err by (reflexivity || exact Hno). reflexivity.
Qed.

Lemma recv_error_during_prelude_internal_error_witness :
  has_nul_run8 (List.concat [[Byte.x7b; Byte.x22]; [Byte.x00; Byte.x00]]) = false /\
  handle_streaming_response (fun _ => None)
    (map (fun c => RecvOk (PayloadChunk (Some c))) [[Byte.x7b; Byte.x22]; [Byte.x00; Byte.x00]]
     ++ [RecvErr; RecvOk (PayloadChunk (Some [Byte.x41]))])
  = mk_response 500 [] (Full []).
Proof.
  split; [reflexivity|].
  exact (recv_error_during_prelude_internal_error (fun _ => None) [Byte.x22]
           [[Byte.x00; Byte.x00]] [RecvOk (PayloadChunk (Some [Byte.x41]))] eq_refl).
Defined.

(* ================================================================== *)
(** * Further properties of the buffered reply and the request body *)

Import Buffered.

(** A reply flagged [isBase64Encoded] whose body is not a whole number of
    four-character base64 groups (the STANDARD engine requires padding) is
    answered with the 500 response, whatever its status code. *)
Theorem buffered_unpadded_base64_internal_error
    (hm : json -> option header_map) (fs : list (string * json))
    (r : AlbTargetGroupResponse) :
  alb_of_json hm (JObject fs) = Some r ->
  is_base64_encoded r = true ->
  List.length (BufferedFacts.body_bytes_of r) mod 4 <> 0 ->
  handle_buffered_json hm (Some (JObject fs)) = mk_response 500 [] (Full []).
Proof.
  intros Hr Henc Hlen. unfold handle_buffered_json. rewrite Hr.
  destruct (Z.le_gt_cases 100 (status_code r)) as [H1|H1];
    [destruct (Z.lt_ge_cases (status_code r) 1000) as [H2|H2]|].
  - rewrite BufferedFacts.response_of_alb_in_range by lia.
    rewrite Henc, decode_length by exact Hlen. reflexivity.
  - apply BufferedFacts.response_of_alb_out_of_range; lia.
  - apply BufferedFacts.response_of_alb_out_of_range; lia.
Qed.

Lemma buffered_unpadded_base64_internal_error_witness :
  let fs := [("statusCode", JNumber 200); ("body", JString "SGk");
             ("isBase64Encoded", JBool true)]%string in
  let r := mk_alb 200 None [] [] (Some "SGk"%string) true in
  alb_of_json (fun _ => None) (JObject fs) = Some r /\
  is_base64_encoded r = true /\
  List.length (BufferedFacts.body_bytes_of r) mod 4 <> 0 /\
  handle_buffered_json (fun _ => None) (Some (JObject fs)) = mk_response 500 [] (Full []).
Proof.
  cbv zeta. split; [reflexivity|]. split; [reflexivity|]. split; [cbv; discriminate|].
  apply (buffered_unpadded_base64_internal_error (fun _ => None) _
           (mk_alb 200 None [] [] (Some "SGk"%string) true)); [reflexivity|reflexivity|].
  cbv; discriminate.
Defined.

(** A body the gateway base64-encodes grows to four characters for every
    three bytes, the last group padded: [4 * ceil(n / 3)] characters for
    [n] bytes. *)
Theorem transform_body_base64_length (body : bytes) :
  List.length (list_byte_of_string (Utils.transform_body true body))
  = 4 * ((List.length body + 2) / 3).
Proof.
  unfold Utils.transform_body, Base64.encode.
  rewrite list_byte_of_string_of_list_byte. apply encode_bytes_length.
Qed.

(* ================================================================== *)
(** * Configuration, authorization and header maps *)

Module ConfigFacts.
Import Config.

Lemma split_comma_not_nil (s : string) : split_comma s <> [].
Proof.
  destruct s as [|c s]; cbn [split_comma]; [discriminate|].
  destruct (Ascii.eqb c ","%char); [discriminate|].
  destruct (split_comma s); discriminate.
Qed.

Lemma concat_cons_char (c : ascii) (f : string) (fs : list string) :
  String.concat "," (String c f :: fs) = String c (String.concat "," (f :: fs)).
Proof. destruct fs; reflexivity. Qed.

(** the fields, joined again with commas, give back the text *)
Lemma split_comma_concat (s : string) : String.concat "," (split_comma s) = s.
Proof.
  induction s as [|c s IH]; [reflexivity|]. cbn [split_comma].
  destruct (Ascii.eqb_spec c ","%char) as [->|Hc].
  - destruct (split_comma s) as [|f fs] eqn:E; [exfalso; exact (split_comma_not_nil s E)|].
    change (String.concat "," (EmptyString :: f :: fs))
      with (String "," (String.concat "," (f :: fs))).
    rewrite IH; reflexivity.
  - destruct (split_comma s) as [|f fs] eqn:E; [exfalso; exact (split_comma_not_nil s E)|].
    rewrite concat_cons_char, IH; reflexivity.
Qed.

Lemma split_comma_no_comma (s : string) :
  forall f, In f (split_comma s) -> ~ In ","%char (list_ascii_of_string f).
Proof.
  induction s as [|c s IH]; cbn [split_comma].
  - intros f [<-|[]]; cbn; tauto.
  - destruct (Ascii.eqb_spec c ","%char) as [->|Hc].
    + intros f [<-|Hf]; [cbn; tauto|exact (IH f Hf)].
    + destruct (split_comma s) as [|g gs] eqn:E.
      * intros f [<-|[]]. cbn. intros [H|[]]. exact (Hc H).
      * intros f [<-|Hf].
        -- cbn [list_ascii_of_string]. intros [H|H]; [exact (Hc H)|].
           exact (IH g (or_introl eq_refl) H).
        -- exact (IH f (or_intror Hf)).
Qed.

Lemma api_keys_of_in (v k : string) :
  In k (api_keys_of v) <-> In k (split_comma v) /\ k <> ""%string.
Proof.
  unfold api_keys_of. rewrite filter_In, negb_true_iff.
  split; intros [H1 H2]; split; try assumption.
  - intros ->. discriminate.
  - apply String.eqb_neq; exact H2.
Qed.

Lemma api_keys_of_no_empty (v : string) :
  existsb (String.eqb "") (api_keys_of v) = false.
Proof.
  apply not_true_iff_false. rewrite existsb_exists.
  intros (k & Hk & E). apply String.eqb_eq in E. subst k.
  apply api_keys_of_in in Hk as [_ Hk]. exact (Hk eq_refl).
Qed.

Ltac destruct_options :=
  repeat match goal with
  | |- context [match ?x with Some _ => _ | None => _ end] => destruct x
  end.

Lemma load_api_keys (env : string -> option string) (tl : string -> string)
    (file : option Config) (v : string) (c : Config) :
  env "API_KEYS"%string = Some v -> load env tl file = Some c -> api_keys c = api_keys_of v.
Proof.
  intros Hv H. unfold load, apply_env_overrides in H. cbv zeta in H. rewrite Hv in H.
  destruct (String.eqb _ _); [discriminate H|]. injection H as <-.
  destruct_options; reflexivity.
Qed.

End ConfigFacts.

Module AuthFacts.

Lemma lbs_app (a b : string) :
  list_byte_of_string (a ++ b) = list_byte_of_string a ++ list_byte_of_string b.
Proof.
  induction a as [|c a IH]; [reflexivity|].
  unfold list_byte_of_string in *. cbn [append list_ascii_of_string map app].
  f_equal. exact IH.
Qed.

Lemma substring_all (s : string) : substring 0 (String.length s) s = s.
Proof. induction s as [|c s IH]; [reflexivity|]. cbn. rewrite IH. reflexivity. Qed.

Lemma strip_prefix_app (p k : string) : Gateway.strip_prefix p (p ++ k) = Some k.
Proof.
  unfold Gateway.strip_prefix.
  replace (String.prefix p (p ++ k)) with true
    by (symmetry; apply CodecFacts.prefix_spec; exists k; reflexivity).
  f_equal. induction p as [|c p IH]; cbn [append String.length substring].
  - rewrite Nat.sub_0_r. apply substring_all.
  - exact IH.
Qed.

Lemma api_key_absent (h : header_map) :
  get "x-api-key" h = None -> get "authorization" h = None -> Gateway.api_key h = ""%string.
Proof. intros H1 H2. unfold Gateway.api_key. rewrite H1, H2. reflexivity. Qed.

End AuthFacts.

Module MapFacts.
Import Maps.

Lemma find_filter_other (k k' : string) (m : hash_map) :
  k' <> k ->
  find (fun kv => String.eqb (fst kv) k)
    (filter (fun kv => negb (String.eqb (fst kv) k')) m)
  = find (fun kv => String.eqb (fst kv) k) m.
Proof.
  intro Hk. induction m as [|[a b] m IH]; [reflexivity|]. cbn [filter fst find].
  destruct (String.eqb_spec a k') as [->|Ha]; cbn [negb find fst].
  - rewrite (proj2 (String.eqb_neq k' k) Hk). exact IH.
  - destruct (String.eqb a k); [reflexivity|exact IH].
Qed.

(** insert then lookup *)
Lemma hm_get_insert (k k' v : string) (m : hash_map) :
  hm_get k (hm_insert k' v m) = if String.eqb k' k then Some v else hm_get k m.
Proof.
  unfold hm_get, hm_insert. cbn [find fst].
  destruct (String.eqb_spec k' k) as [->|Hk]; [reflexivity|].
  rewrite find_filter_other by exact Hk. reflexivity.
Qed.

Lemma fold_insert_get (kvs : list (string * string)) :
  forall m k,
  hm_get k (fold_left (fun m kv => hm_insert (fst kv) (snd kv) m) kvs m)
  = match hd_error (rev (get_all k kvs)) with Some v => Some v | None => hm_get k m end.
Proof.
  induction kvs as [|[a b] kvs IH]; intros m k; [reflexivity|].
  cbn [fold_left fst snd]. rewrite IH, hm_get_insert.
  unfold get_all. cbn [filter fst].
  destruct (String.eqb a k); cbn [map snd rev]; [|reflexivity].
  destruct (rev (map snd (filter (fun kv => String.eqb (fst kv) k) kvs)));
    reflexivity.
Qed.

(** a map collected from pairs holds, for each key, its last value *)
Lemma collect_get (kvs : list (string * string)) (k : string) :
  hm_get k (collect kvs) = hd_error (rev (get_all k kvs)).
Proof.
  unfold collect. rewrite fold_insert_get.
  destruct (hd_error (rev (get_all k kvs))); reflexivity.
Qed.

Lemma get_all_map_values (f : string -> string) (h : header_map) (k : string) :
  get_all k (map (fun kv => (fst kv, f (snd kv))) h) = map f (get_all k h).
Proof.
  induction h as [|[a b] h IH]; [reflexivity|]. unfold get_all in *. cbn [map filter fst snd].
  destruct (String.eqb a k); cbn [map snd]; rewrite IH; reflexivity.
Qed.

Lemma fold_step_none (h : header_map) :
  fold_left (fun acc kv =>
               match acc with
               | None => None
               | Some m =>
                   match to_str (snd kv) with
                   | Some v => Some (hm_insert (fst kv) v m)
                   | None => None
                   end
               end) h None = None.
Proof. induction h; [reflexivity|exact IHh]. Qed.

Lemma to_str_some (v w : string) : to_str v = Some w -> w = v.
Proof. unfold to_str. destruct (forallb _ _); congruence. Qed.

Lemma fold_step_some (h : header_map) :
  forall m,
  fold_left (fun acc kv =>
               match acc with
               | None => None
               | Some m =>
                   match to_str (snd kv) with
                   | Some v => Some (hm_insert (fst kv) v m)
                   | None => None
                   end
               end) h (Some m)
  = if forallb (fun kv => if to_str (snd kv) then true else false) h
    then Some (fold_left (fun m kv => hm_insert (fst kv) (snd kv) m) h m) else None.
Proof.
  induction h as [|kv h IH]; intro m; [reflexivity|]. cbn [fold_left forallb].
  destruct (to_str (snd kv)) as [w|] eqn:E.
  - apply to_str_some in E. subst w. apply IH.
  - apply fold_step_none.
Qed.

Lemma forallb_false_exists {A} (f : A -> bool) (l : list A) :
  forallb f l = false -> exists x, In x l /\ f x = false.
Proof.
  induction l as [|a l IH]; cbn [forallb]; [discriminate|].
  destruct (f a) eqn:Ea; cbn [andb].
  - intro H. destruct (IH H) as (x & Hx & Hf). exists x; split; [right|]; assumption.
  - intros _. exists a; split; [left; reflexivity|exact Ea].
Qed.

End MapFacts.

Import ConfigFacts AuthFacts MapFacts.

(** [Config::load] panics exactly when the function name it ends with is
    empty: [LAMBDA_FUNCTION_NAME] when set (even to the empty string),
    otherwise the name read from the file, otherwise the default's empty
    name. *)
Theorem load_panics_iff_no_function_name (env : string -> option string)
    (tl : string -> string) (file : option Config.Config) :
  Config.load env tl file = None <->
  match env "LAMBDA_FUNCTION_NAME"%string with
  | Some v => v
  | None => match file with Some c => Config.lambda_function_name c | None => ""%string end
  end = ""%string.
Proof.
  unfold Config.load, Config.apply_env_overrides. cbv zeta.
  destruct (env "LAMBDA_FUNCTION_NAME"%string) as [v|]; [|destruct file as [c|]];
    cbn [Config.lambda_function_name Config.default_config];
    match goal with |- context [String.eqb ?x ""%string] =>
      destruct (String.eqb_spec x ""%string) end;
    split; intro H; solve [reflexivity | assumption | discriminate | contradiction].
Qed.

(** With [API_KEYS] set, the loaded keys are the non-empty fields of its
    comma-separated value: every key is non-empty and holds no comma, and
    the fields joined again with commas give back the value. *)
Theorem load_api_keys_from_env (env : string -> option string) (tl : string -> string)
    (file : option Config.Config) (v : string) (c : Config.Config) :
  env "API_KEYS"%string = Some v ->
  Config.load env tl file = Some c ->
  (forall k, In k (Config.api_keys c) <-> In k (Config.split_comma v) /\ k <> ""%string) /\
  (forall k, In k (Config.api_keys c) -> ~ In ","%char (list_ascii_of_string k)) /\
  String.concat "," (Config.split_comma v) = v.
Proof.
  intros Hv Hc. rewrite (load_api_keys env tl file v c Hv Hc).
  split; [apply api_keys_of_in|split; [|apply split_comma_concat]].
  intros k Hk. apply api_keys_of_in in Hk as [Hk _]. exact (split_comma_no_comma v k Hk).
Qed.

Lemma load_api_keys_from_env_witness :
  let env := fun k => if String.eqb k "API_KEYS" then Some ",ab,,c,"%string
                      else if String.eqb k "LAMBDA_FUNCTION_NAME" then Some "fn"%string
                      else None in
  let c := Config.mk_config "fn" Config.Buffered ["ab"; "c"]%string Config.Open
             Config.default_addr in
  env "API_KEYS"%string = Some ",ab,,c,"%string /\
  Config.load env (fun s => s) None = Some c /\
  ((forall k, In k (Config.api_keys c) <-> In k (Config.split_comma ",ab,,c,") /\ k <> ""%string) /\
   (forall k, In k (Config.api_keys c) -> ~ In ","%char (list_ascii_of_string k)) /\
   String.concat "," (Config.split_comma ",ab,,c,") = ",ab,,c,"%string).
Proof.
  intros env c. split; [reflexivity|]. split; [reflexivity|].
  exact (load_api_keys_from_env env (fun s => s) None ",ab,,c,"%string c eq_refl eq_refl).
Defined.

(** A key present in [x-api-key] (and readable as visible ASCII) is the
    only one [is_authorized] looks at: the [authorization] header is then
    ignored, whatever bearer token it carries. *)
Theorem is_authorized_reads_x_api_key_first (h : header_map) (c : Config.Config)
    (v : string) :
  get "x-api-key" h = Some v ->
  forallb visible_ascii (list_byte_of_string v) = true ->
  Auth.is_authorized h c
  = match Config.auth_mode c with
    | Config.Open => true
    | Config.ApiKey => existsb (String.eqb v) (Config.api_keys c)
    end.
Proof.
  intros H1 H2. unfold Auth.is_authorized, Gateway.api_key. rewrite H1.
  cbn [Base64.obind]. unfold to_str at 1. rewrite H2. reflexivity.
Qed.

Lemma is_authorized_reads_x_api_key_first_witness :
  let h := [("x-api-key", "invalid"); ("authorization", "Bearer test")]%string in
  let c := Config.mk_config "fn" Config.Buffered ["test"]%string Config.ApiKey
             Config.default_addr in
  get "x-api-key" h = Some "invalid"%string /\
  forallb visible_ascii (list_byte_of_string "invalid") = true /\
  Auth.is_authorized h c = false.
Proof.
  intros h c. split; [reflexivity|]. split; [reflexivity|].
  rewrite (is_authorized_reads_x_api_key_first h c "invalid"%string eq_refl eq_refl).
  reflexivity.
Defined.

(** Without [x-api-key], a visible-ASCII [authorization: Bearer <k>]
    header supplies the key [k]. *)
Theorem is_authorized_bearer_token (h : header_map) (c : Config.Config) (k : string) :
  get "x-api-key" h = None ->
  get "authorization" h = Some ("Bearer " ++ k)%string ->
  forallb visible_ascii (list_byte_of_string k) = true ->
  Auth.is_authorized h c
  = match Config.auth_mode c with
    | Config.Open => true
    | Config.ApiKey => existsb (String.eqb k) (Config.api_keys c)
    end.
Proof.
  intros H1 H2 H3. unfold Auth.is_authorized, Gateway.api_key. rewrite H1, H2.
  cbn [Base64.obind]. unfold to_str. rewrite lbs_app, forallb_app, H3.
  replace (forallb visible_ascii (list_byte_of_string "Bearer ")) with true by reflexivity.
  cbn [andb Base64.obind]. rewrite strip_prefix_app. reflexivity.
Qed.

Lemma is_authorized_bearer_token_witness :
  let h := [("authorization", "Bearer test")]%string in
  let c := Config.mk_config "fn" Config.Buffered ["test"]%string Config.ApiKey
             Config.default_addr in
  get "x-api-key" h = None /\
  get "authorization" h = Some ("Bearer " ++ "test")%string /\
  forallb visible_ascii (list_byte_of_string "test") = true /\
  Auth.is_authorized h c = true.
Proof.
  intros h c. split; [reflexivity|]. split; [reflexivity|]. split; [reflexivity|].
  rewrite (is_authorized_bearer_token h c "test"%string eq_refl eq_refl eq_refl).
  reflexivity.
Defined.

(** With [API_KEYS] set, a request carrying neither [x-api-key] nor
    [authorization] is refused in [ApiKey] mode: the empty key it is read
    as is never among the loaded keys. *)
Theorem keyless_request_rejected_with_env_keys (env : string -> option string)
    (tl : string -> string) (file : option Config.Config) (v : string)
    (c : Config.Config) (h : header_map) :
  env "API_KEYS"%string = Some v ->
  Config.load env tl file = Some c ->
  get "x-api-key" h = None ->
  get "authorization" h = None ->
  Auth.is_authorized h c
  = match Config.auth_mode c with Config.Open => true | Config.ApiKey => false end.
Proof.
  intros Hv Hc H1 H2. unfold Auth.is_authorized.
  destruct (Config.auth_mode c); [reflexivity|].
  rewrite api_key_absent by assumption. rewrite (load_api_keys env tl file v c Hv Hc).
  apply api_keys_of_no_empty.
Qed.

Lemma keyless_request_rejected_with_env_keys_witness :
  let env := fun k => if String.eqb k "API_KEYS" then Some ",a,"%string
                      else if String.eqb k "AUTH_MODE" then Some "apikey"%string
                      else if String.eqb k "LAMBDA_FUNCTION_NAME" then Some "fn"%string
                      else None in
  let c := Config.mk_config "fn" Config.Buffered ["a"]%string Config.ApiKey
             Config.default_addr in
  let h := [("accept", "*/*")]%string in
  env "API_KEYS"%string = Some ",a,"%string /\
  Config.load env (fun s => s) None = Some c /\
  get "x-api-key" h = None /\ get "authorization" h = None /\
  Auth.is_authorized h c = false.
Proof.
  intros env c h. split; [reflexivity|]. split; [reflexivity|].
  split; [reflexivity|]. split; [reflexivity|].
  exact (keyless_request_rejected_with_env_keys env (fun s => s) None ",a,"%string c h
           eq_refl eq_refl eq_refl eq_refl).
Defined.

(** [to_string_map] keeps, for every header name, the last of its values
    (read with [from_utf8_lossy]); a name without values has no entry. *)
Theorem to_string_map_last_value (h : header_map) (k : string) :
  Maps.hm_get k (Maps.to_string_map h)
  = option_map (fun v => Utf8.from_utf8_lossy (list_byte_of_string v))
      (hd_error (rev (get_all k h))).
Proof.
  unfold Maps.to_string_map. rewrite collect_get.
  rewrite (get_all_map_values (fun v => Utf8.from_utf8_lossy (list_byte_of_string v))).
  rewrite <- map_rev.
  destruct (rev (get_all k h)); reflexivity.
Qed.

(** [header_map_to_hash_map] panics exactly when some header value is not
    visible ASCII; otherwise every name maps to its last value. *)
Theorem header_map_to_hash_map_spec (h : header_map) :
  (Maps.header_map_to_hash_map h = None <-> exists kv, In kv h /\ to_str (snd kv) = None) /\
  match Maps.header_map_to_hash_map h with
  | Some m => forall k, Maps.hm_get k m = hd_error (rev (get_all k h))
  | None => True
  end.
Proof.
  unfold Maps.header_map_to_hash_map. rewrite fold_step_some.
  destruct (forallb _ h) eqn:E.
  - split.
    + split; [discriminate|]. intros (kv & Hin & Hn).
      rewrite forallb_forall in E. specialize (E kv Hin). rewrite Hn in E. discriminate.
    + intro k. exact (collect_get h k).
  - split; [|exact I]. split; [intros _|reflexivity].
    destruct (forallb_false_exists _ _ E) as (kv & Hin & Hf).
    exists kv. split; [exact Hin|]. destruct (to_str (snd kv)); [discriminate|reflexivity].
Qed.

(* ================================================================== *)
(** * The streaming decoder of [src/lib.rs] *)

Module LibFacts.

(** the bytes a well-formed or maximal-invalid step covers, after its
    first, are all at least 0x80 *)
Lemma lead_info_bounds (n w lo hi : nat) :
  Utf8.lead_info n = Some (w, lo, hi) -> 2 <= w /\ 128 <= lo.
Proof.
  unfold Utf8.lead_info.
  repeat match goal with |- context [if ?c then _ else _] => destruct c end;
    intro H; try discriminate H; injection H as <- <- <-; lia.
Qed.

Lemma cont_count_high (n : nat) :
  forall (l : bytes) x, In x (firstn (Utf8.cont_count n l) l) -> 128 <= Byte.to_nat x.
Proof.
  induction n as [|n IH]; intros l x; [intros []|].
  destruct l as [|b l]; [intros []|]. cbn [Utf8.cont_count].
  destruct (Utf8.in_range 128 191 b) eqn:Eb; [|intros []].
  cbn [firstn In]. intros [<-|Hx]; [|exact (IH l x Hx)].
  unfold Utf8.in_range in Eb. apply andb_prop in Eb as [Eb _]. apply Nat.leb_le in Eb. exact Eb.
Qed.

Lemma scan_prefix (b0 : Byte.byte) (rest : bytes) (w : nat) (ok : bool) :
  Utf8.scan (b0 :: rest) = (w, ok) ->
  1 <= w /\ forall x, In x (firstn w (b0 :: rest)) -> x = b0 \/ 128 <= Byte.to_nat x.
Proof.
  unfold Utf8.scan.
  assert (Hone : forall x, In x (firstn 1 (b0 :: rest)) -> x = b0 \/ 128 <= Byte.to_nat x)
    by (intros x [<-|[]]; left; reflexivity).
  destruct (Byte.to_nat b0 <? 128); [intro H; injection H as <- _; split; [lia|exact Hone]|].
  destruct (Utf8.lead_info (Byte.to_nat b0)) as [[[w' lo] hi]|] eqn:El;
    [|intro H; injection H as <- _; split; [lia|exact Hone]].
  destruct (lead_info_bounds _ _ _ _ El) as [Hw' Hlo].
  destruct rest as [|b1 rest1]; [intro H; injection H as <- _; split; [lia|exact Hone]|].
  destruct (Utf8.in_range lo hi b1) eqn:Eb1;
    [|intro H; injection H as <- _; split; [lia|exact Hone]].
  assert (Hb1 : 128 <= Byte.to_nat b1).
  { unfold Utf8.in_range in Eb1. apply andb_prop in Eb1 as [Eb1 _].
    apply Nat.leb_le in Eb1. lia. }
  set (k := Utf8.cont_count (w' - 2) rest1).
  assert (Hgen : forall x, In x (firstn (2 + k) (b0 :: b1 :: rest1)) ->
                           x = b0 \/ 128 <= Byte.to_nat x).
  { cbn [Nat.add firstn In]. intros x [<-|[<-|Hx]]; [left; reflexivity|right; exact Hb1|].
    right. exact (cont_count_high _ _ _ Hx). }
  destruct (k =? w' - 2) eqn:Ek; intro H; injection H as <- _.
  - apply Nat.eqb_eq in Ek. split; [lia|]. replace w' with (2 + k) by lia. exact Hgen.
  - split; [lia|exact Hgen].
Qed.

(** the lossy conversion keeps every NUL byte *)
Lemma lossy_aux_nul (fuel : nat) :
  forall bs, List.length bs <= fuel -> In Byte.x00 bs -> In Byte.x00 (Utf8.lossy_aux fuel bs).
Proof.
  induction fuel as [|f IH]; intros bs Hlen Hin.
  - destruct bs; [destruct Hin|cbn in Hlen; lia].
  - destruct bs as [|b0 rest]; [destruct Hin|]. cbn [Utf8.lossy_aux].
    destruct (Utf8.scan (b0 :: rest)) as [w ok] eqn:Es. cbn beta iota.
    destruct (Byte.byte_eq_dec b0 Byte.x00) as [->|Hb0].
    + replace (Utf8.scan (Byte.x00 :: rest)) with (1, true) in Es by reflexivity.
      injection Es as <- <-. left. reflexivity.
    + destruct (scan_prefix b0 rest w ok Es) as [Hw Hpre].
      apply in_or_app. right. apply IH.
      * rewrite length_skipn. cbn [List.length] in Hlen |- *. lia.
      * rewrite <- (firstn_skipn w (b0 :: rest)) in Hin.
        apply in_app_or in Hin as [Hin|Hin]; [|exact Hin].
        exfalso. destruct (Hpre _ Hin) as [E|E]; [exact (Hb0 (eq_sym E))|cbn in E; lia].
Qed.

Lemma from_utf8_lossy_nul (bs : bytes) :
  In Byte.x00 bs -> In Byte.x00 (list_byte_of_string (Utf8.from_utf8_lossy bs)).
Proof.
  intro H. unfold Utf8.from_utf8_lossy. rewrite list_byte_of_string_of_list_byte.
  apply lossy_aux_nul; [lia|exact H].
Qed.

Lemma firstn_app_length_add {A} (l m : list A) (n : nat) :
  firstn (List.length l + n) (l ++ m) = l ++ firstn n m.
Proof.
  rewrite firstn_app, firstn_all2 by lia. f_equal. f_equal. lia.
Qed.

Section Loop.

Variable from_str : string -> option MetadataPrelude.

Lemma process_no_run (buffer xs : bytes) :
  forall i nc, nc < 8 -> has_nul_run8 (nuls nc ++ xs) = false ->
  Lib.process_loop from_str buffer xs i nc = (None, []).
Proof.
  induction xs as [|x xs IH]; intros i nc Hnc Hno; [reflexivity|].
  cbn [Lib.process_loop]. destruct (Byte.eqb x nul) eqn:Ex.
  - apply Byte.byte_dec_bl in Ex; subst x.
    rewrite nuls_S_app in Hno.
    destruct (S nc =? 8) eqn:E8.
    + apply Nat.eqb_eq in E8; rewrite E8, has_nul_run8_nuls8 in Hno; discriminate.
    + apply Nat.eqb_neq in E8. apply IH; [lia|exact Hno].
  - apply IH; [lia|]. apply (no_run_suffix (nuls nc ++ [x])).
    rewrite <- app_assoc; exact Hno.
Qed.

Lemma process_skip (buffer ys : bytes) (y : Byte.byte) (zs : bytes) :
  y <> nul ->
  forall i nc, nc < 8 -> has_nul_run8 (nuls nc ++ ys) = false ->
  Lib.process_loop from_str buffer (ys ++ y :: zs) i nc
  = Lib.process_loop from_str buffer zs (i + List.length ys + 1) 0.
Proof.
  intro Hy. induction ys as [|x ys IH]; intros i nc Hnc Hno.
  - cbn [app Lib.process_loop]. destruct (Byte.eqb y nul) eqn:Ey.
    + apply Byte.byte_dec_bl in Ey; contradiction.
    + cbn [List.length]; rewrite Nat.add_0_r, Nat.add_1_r; reflexivity.
  - cbn [app Lib.process_loop]. destruct (Byte.eqb x nul) eqn:Ex.
    + apply Byte.byte_dec_bl in Ex; subst x.
      rewrite nuls_S_app in Hno.
      destruct (S nc =? 8) eqn:E8.
      * apply Nat.eqb_eq in E8; rewrite E8, has_nul_run8_nuls8 in Hno; discriminate.
      * apply Nat.eqb_neq in E8. rewrite IH by (lia || exact Hno).
        f_equal; simpl; lia.
    + rewrite IH; [f_equal; simpl; lia|lia|].
      apply (no_run_suffix (nuls nc ++ [x])); rewrite <- app_assoc; exact Hno.
Qed.

Lemma process_hit (buffer post : bytes) (i : nat) :
  Lib.process_loop from_str buffer (nuls 8 ++ post) i 0
  = (Some (parse_prelude from_str (firstn (i + 7) buffer)), skipn (i + 8) buffer).
Proof.
  cbn -[parse_prelude firstn skipn].
  match goal with
  | |- (Some (parse_prelude _ (firstn ?a _)), skipn ?b _) = _ =>
      replace a with (i + 7) by lia; replace b with (i + 8) by lia
  end.
  reflexivity.
Qed.

(** [process_buffer] stops at the first run; the text it parses keeps the
    seven NULs before the eighth *)
Lemma process_first_run (pre post : bytes) :
  has_nul_run8 (pre ++ nuls 7) = false ->
  Lib.process_buffer from_str (pre ++ nuls 8 ++ post)
  = (Some (parse_prelude from_str (pre ++ nuls 7)), post).
Proof.
  intro Hno. unfold Lib.process_buffer.
  destruct pre as [|p0 pre'] using rev_ind.
  - rewrite !app_nil_l, process_hit. reflexivity.
  - clear IHpre'.
    assert (Hp0 : p0 <> nul).
    { intros ->. rewrite <- app_assoc in Hno.
      change ([nul] ++ nuls 7) with (nuls 8 ++ []) in Hno.
      rewrite (has_nul_run8_suffix pre' _ (has_nul_run8_nuls8 [])) in Hno; discriminate. }
    assert (Hpre : has_nul_run8 (nuls 0 ++ pre') = false).
    { apply (no_run_prefix _ ([p0] ++ nuls 7)).
      change (nuls 0 ++ pre') with pre'. rewrite app_assoc; exact Hno. }
    set (buf := (pre' ++ [p0]) ++ nuls 8 ++ post).
    assert (Hxs : buf = pre' ++ p0 :: nuls 8 ++ post)
      by (unfold buf; rewrite <- app_assoc; reflexivity).
    rewrite Hxs at 2. rewrite process_skip by (assumption || lia).
    rewrite process_hit. unfold buf.
    replace (0 + List.length pre' + 1) with (List.length (pre' ++ [p0]))
      by (rewrite length_app; simpl; lia).
    rewrite firstn_app_length_add, skipn_app_length_add. reflexivity.
Qed.

Lemma collect_loop_no_run (cs : list (option bytes)) :
  forall buf, has_nul_run8 (buf ++ all_bytes cs) = false ->
  Lib.collect_loop from_str buf (chunks_stream cs) = (None, [], []).
Proof.
  induction cs as [|[d|] cs IH]; intros buf Hno; [reflexivity| |].
  - rewrite chunks_stream_cons. cbn [Lib.collect_loop].
    rewrite all_bytes_cons, app_assoc in Hno.
    unfold Lib.process_buffer.
    rewrite process_no_run by (lia || exact (no_run_prefix _ _ Hno)).
    apply IH. exact Hno.
  - rewrite chunks_stream_cons. cbn [Lib.collect_loop]. apply IH. exact Hno.
Qed.

End Loop.

Lemma fold_append_headers (hs : header_map) :
  forall s acc,
  fold_left (fun b kv =>
               if negb (String.eqb (fst kv) "content-length") then
                 Lib.builder_append (fst kv) (snd kv) b
               else b) hs (Some (s, acc))
  = Some (s, acc ++ remove "content-length" hs).
Proof.
  induction hs as [|[k v] hs IH]; intros s acc; [rewrite app_nil_r; reflexivity|].
  cbn [fold_left fst snd remove filter]. unfold remove in IH.
  destruct (String.eqb k "content-length"); cbn [negb].
  - apply IH.
  - cbn [Lib.builder_append]. rewrite IH, <- app_assoc. reflexivity.
Qed.

Lemma lib_response_builder_same (metadata_prelude : option MetadataPrelude) :
  Lib.response_builder metadata_prelude = create_response_builder metadata_prelude.
Proof.
  destruct metadata_prelude as [m|]; [|reflexivity].
  unfold Lib.response_builder, create_response_builder.
  rewrite fold_append_headers. reflexivity.
Qed.

End LibFacts.

Import LibFacts.

(** In [src/lib.rs], the text [process_buffer] hands to [serde_json] is
    [buffer[..i]] with [i] the index of the eighth NUL: it still holds the
    seven NULs before it, which [from_utf8_lossy] keeps. A parser that
    rejects every text containing a NUL byte (as [serde_json] does: a raw
    NUL is neither whitespace nor allowed in a string) therefore never
    succeeds, and every prelude [process_buffer] returns is the default
    one (200, no headers, no cookies), while the bytes after the run are
    still returned as the remaining data. *)
Theorem lib_process_buffer_prelude_always_default
    (from_str : string -> option MetadataPrelude) (buffer : bytes)
    (p : MetadataPrelude) (rem : bytes) :
  (forall s, In Byte.x00 (list_byte_of_string s) -> from_str s = None) ->
  Lib.process_buffer from_str buffer = (Some p, rem) ->
  p = default_prelude /\ exists pre, buffer = pre ++ nuls 8 ++ rem.
Proof.
  intros Hser H. destruct (has_nul_run8 buffer) eqn:E.
  - destruct (first_nul_run8 buffer E) as (pre & post & -> & Hno).
    rewrite process_first_run in H by exact Hno. injection H as <- <-.
    split; [|exists pre; reflexivity].
    unfold parse_prelude. rewrite Hser; [reflexivity|].
    apply from_utf8_lossy_nul. apply in_or_app. right. left. reflexivity.
  - unfold Lib.process_buffer in H.
    rewrite process_no_run in H by (lia || exact E). discriminate.
Qed.

Lemma lib_process_buffer_prelude_always_default_witness :
  let from_str := fun s => if existsb (Byte.eqb Byte.x00) (list_byte_of_string s)
                           then None else Some Samples.scenario_prelude in
  let buffer := Byte.x7b :: nuls 8 ++ [Byte.x41] in
  (forall s, In Byte.x00 (list_byte_of_string s) -> from_str s = None) /\
  Lib.process_buffer from_str buffer = (Some default_prelude, [Byte.x41]) /\
  (default_prelude = default_prelude /\ exists pre, buffer = pre ++ nuls 8 ++ [Byte.x41]).
Proof.
  intros from_str buffer.
  assert (Hser : forall s, In Byte.x00 (list_byte_of_string s) -> from_str s = None).
  { intros s Hs. unfold from_str.
    replace (existsb (Byte.eqb Byte.x00) (list_byte_of_string s)) with true; [reflexivity|].
    symmetry. apply existsb_exists. exists Byte.x00. split; [exact Hs|reflexivity]. }
  assert (Hp : Lib.process_buffer from_str buffer = (Some default_prelude, [Byte.x41]))
    by reflexivity.
  split; [exact Hser|]. split; [exact Hp|].
  exact (lib_process_buffer_prelude_always_default from_str buffer default_prelude
           [Byte.x41] Hser Hp).
Defined.

(** In [src/lib.rs], a stream whose first chunk starts with [{] but which
    never carries eight consecutive NULs loses its whole content: the
    prelude collection consumes every event and returns no data, and the
    response is 200 [application/octet-stream] with an empty body. *)
Theorem lib_unterminated_prelude_dropped (from_str : string -> option MetadataPrelude)
    (c0 : bytes) (cs : list (option bytes)) :
  has_nul_run8 (all_bytes (Some (Byte.x7b :: c0) :: cs)) = false ->
  Lib.handle_streaming_response from_str (chunks_stream (Some (Byte.x7b :: c0) :: cs))
  = Some (mk_response 200 [("content-type", "application/octet-stream")]%string (Streamed [])).
Proof.
  intro Hno. unfold Lib.handle_streaming_response. rewrite chunks_stream_cons.
  cbn [Lib.detect_metadata].
  change (Streaming.detect_metadata (Byte.x7b :: c0)) with true. cbn iota.
  unfold Lib.collect_metadata. unfold Lib.process_buffer at 1.
  rewrite all_bytes_cons in Hno.
  rewrite process_no_run by (lia || exact (no_run_prefix _ _ Hno)).
  rewrite collect_loop_no_run by exact Hno. reflexivity.
Qed.

Lemma lib_unterminated_prelude_dropped_witness :
  has_nul_run8 (all_bytes [Some [Byte.x7b; Byte.x41]; Some [Byte.x00; Byte.x42]]) = false /\
  Lib.handle_streaming_response (fun _ => None)
    (chunks_stream [Some [Byte.x7b; Byte.x41]; Some [Byte.x00; Byte.x42]])
  = Some (mk_response 200 [("content-type", "application/octet-stream")]%string (Streamed [])).
Proof.
  split; [reflexivity|].
  exact (lib_unterminated_prelude_dropped (fun _ => None) [Byte.x41]
           [Some [Byte.x00; Byte.x42]] eq_refl).
Defined.

(* ================================================================== *)
(** * The request closure of [handler_factory] *)

(** An authorized request (the target has no key check, or the request's
    key is among the target's keys) is sent to the backend exactly once,
    with the target's invoke mode and function name and the ALB payload
    built from the request: its method, headers, path, query, the base64
    flag of the classifier and the body encoded accordingly. The
    operations are classification, body encoding, the key check (when
    configured), the payload, then the invocation. *)
Theorem authorized_request_invoked_once
    (backend : Gateway.LambdaInvokeMode -> string -> Gateway.AlbRequestBody -> response)
    (target : Gateway.Target) (req : Gateway.Request) (log : list Gateway.op) :
  match Gateway.auth target with
  | None => True
  | Some (Gateway.ApiKeys keys) => Gateway.key_accepted keys (Gateway.req_headers req) = true
  end ->
  let enc := Utils.whether_should_base64_encode (Gateway.req_headers req) in
  Gateway.handler backend target req log
  = (backend (Gateway.invoke target) (Gateway.function target)
       (Gateway.mk_alb_request (Gateway.method req) (Gateway.req_headers req)
          (Gateway.path req) (Gateway.query req) enc
          (Utils.transform_body enc (Gateway.req_body req))),
     log ++ [Gateway.OpClassify; Gateway.OpTransformBody]
         ++ match Gateway.auth target with
            | None => []
            | Some _ => [Gateway.OpAuthorize]
            end
         ++ [Gateway.OpBuildPayload; Gateway.OpInvoke (Gateway.invoke target)]).
Proof.
  intros Ha enc. unfold Gateway.handler, Gateway.bind, Gateway.perform, Gateway.ret.
  destruct (Gateway.auth target) as [[keys]|]; cbv beta iota.
  - rewrite Ha. cbn [negb]. rewrite <- !app_assoc. reflexivity.
  - cbn [negb]. rewrite <- !app_assoc. reflexivity.
Qed.

Lemma authorized_request_invoked_once_witness :
  let backend := fun (_ : Gateway.LambdaInvokeMode) (_ : string) (_ : Gateway.AlbRequestBody) =>
                   mk_response 200 [] (Full [Byte.x4f; Byte.x4b]) in
  let target := Gateway.mk_target "f" (Some (Gateway.ApiKeys ["k"%string]))
                  Gateway.ResponseStream in
  let req := Gateway.mk_request "POST" "/items" [] [("x-api-key", "k")]%string
               [Byte.x41] in
  Gateway.key_accepted ["k"%string] (Gateway.req_headers req) = true /\
  Gateway.handler backend target req []
  = (mk_response 200 [] (Full [Byte.x4f; Byte.x4b]),
     [Gateway.OpClassify; Gateway.OpTransformBody; Gateway.OpAuthorize;
      Gateway.OpBuildPayload; Gateway.OpInvoke Gateway.ResponseStream]).
Proof.
  intros backend target req. split; [reflexivity|].
  exact (authorized_request_invoked_once backend target req [] eq_refl).
Defined.

(** The response head of [src/lib.rs] agrees with the one of
    [src/streaming.rs]: both fail together (an invalid cookie), and
    otherwise they have the same status and, under every header name, the
    same values in the same order (with a prelude: its values, none under
    [content-length], then one [set-cookie] per cookie; without one, 200
    and [content-type: application/octet-stream]). *)
Theorem lib_response_builder_agrees (metadata_prelude : option MetadataPrelude) :
  match Lib.response_builder metadata_prelude, create_response_builder metadata_prelude with
  | Some (s1, h1), Some (s2, h2) => s1 = s2 /\ forall k, get_all k h1 = get_all k h2
  | None, None => True
  | _, _ => False
  end.
Proof.
  rewrite lib_response_builder_same.
  destruct (create_response_builder metadata_prelude) as [[s h]|]; [|exact I].
  split; reflexivity.
Qed.

